(** * Activity monitor: a shallow embedding of [main.go] and its polling loop.

    The program samples the foreground window title and the owning process
    name through external commands, prints one line per sample, tags a few
    known applications and backs off after repeated window-title failures.

    Layout of the development:
    - [utf8], [unicode], [strings], [fmt], [time]: the parts of the Go
      standard library the program calls, as functions on byte strings;
    - [Sys]: the outside world (command results, the wall clock) as an oracle
      indexed by the number of interactions performed so far;
    - the program: [checkDependencies], [getActiveWindowTitle],
      [getActiveProcessName], [monitorActivity] and [main] in a small state
      monad over the machine state, the infinite loop observed for a given
      number of iterations;
    - facts about byte strings and lower-casing;
    - the properties of the polling loop, and the same on concrete runs. *)

From Stdlib Require Import ZArith List String Ascii Bool Lia.
From Stdlib Require Import DecimalString.
Import ListNotations.

Local Open Scope string_scope.
Local Open Scope Z_scope.

(** ** Bytes and slices

    A Go [string] is a sequence of bytes; [ascii] is used as the byte type. *)

Definition b2z (c : ascii) : Z := Z.of_N (N_of_ascii c).

(** Go's conversion [byte(x)]: truncation to the low eight bits. *)
Definition z2b (x : Z) : ascii := ascii_of_N (Z.to_N (x mod 256)).

(** [s[i:]] *)
Fixpoint drop (i : nat) (s : string) : string :=
  match i, s with
  | O, _ => s
  | S i', String _ t => drop i' t
  | S _, EmptyString => EmptyString
  end.

(** [s[:i]] *)
Fixpoint take (i : nat) (s : string) : string :=
  match i, s with
  | O, _ => EmptyString
  | S i', String c t => String c (take i' t)
  | S _, EmptyString => EmptyString
  end.

(** [s[i:j]] *)
Definition slice (s : string) (i j : nat) : string := take (j - i) (drop i s).

(** [s[i]], read as 0 outside the string (every use below is in range). *)
Definition at_ (s : string) (i : nat) : Z :=
  match String.get i s with
  | Some c => b2z c
  | None => 0
  end.

Fixpoint all_bytes (p : Z -> bool) (s : string) : bool :=
  match s with
  | EmptyString => true
  | String c t => p (b2z c) && all_bytes p t
  end.

Fixpoint map_bytes (f : Z -> Z) (s : string) : string :=
  match s with
  | EmptyString => EmptyString
  | String c t => String (z2b (f (b2z c))) (map_bytes f t)
  end.

(** ** Package [unicode/utf8] *)
Module utf8.

Definition RuneError : Z := 0xFFFD.
Definition RuneSelf : Z := 0x80.
Definition MaxRune : Z := 0x10FFFF.
Definition UTFMax : nat := 4.

Definition surrogateMin : Z := 0xD800.
Definition surrogateMax : Z := 0xDFFF.

Definition tx : Z := 0x80.
Definition t2 : Z := 0xC0.
Definition t3 : Z := 0xE0.
Definition t4 : Z := 0xF0.

Definition maskx : Z := 0x3F.
Definition mask2 : Z := 0x1F.
Definition mask3 : Z := 0x0F.
Definition mask4 : Z := 0x07.

Definition rune1Max : Z := 0x7F.
Definition rune2Max : Z := 0x7FF.
Definition rune3Max : Z := 0xFFFF.

Definition locb : Z := 0x80.
Definition hicb : Z := 0xBF.

(** The table [first] together with [acceptRanges]: for a leading byte,
    either ASCII, or invalid, or the length of the sequence and the range
    the second byte must lie in. *)
Inductive lead : Type :=
| AS
| XX
| Seq (sz : nat) (lo hi : Z).

Definition first (s0 : Z) : lead :=
  if s0 <? 0x80 then AS
  else if s0 <? 0xC2 then XX
  else if s0 <? 0xE0 then Seq 2 locb hicb
  else if s0 =? 0xE0 then Seq 3 0xA0 hicb
  else if s0 <? 0xED then Seq 3 locb hicb
  else if s0 =? 0xED then Seq 3 locb 0x9F
  else if s0 <? 0xF0 then Seq 3 locb hicb
  else if s0 =? 0xF0 then Seq 4 0x90 hicb
  else if s0 <? 0xF4 then Seq 4 locb hicb
  else if s0 =? 0xF4 then Seq 4 locb 0x8F
  else XX.

(** [utf8.DecodeRuneInString]: the first rune of [s] and its width in bytes;
    [(RuneError, 0)] on the empty string and [(RuneError, 1)] on a byte that
    starts no valid encoding. *)
Definition DecodeRuneInString (s : string) : Z * nat :=
  match s with
  | EmptyString => (RuneError, 0%nat)
  | String c0 r0 =>
    let s0 := b2z c0 in
    match first s0 with
    | AS => (s0, 1%nat)
    | XX => (RuneError, 1%nat)
    | Seq sz lo hi =>
      if (String.length s <? sz)%nat then (RuneError, 1%nat) else
      match r0 with
      | EmptyString => (RuneError, 1%nat)
      | String c1 r1 =>
        let s1 := b2z c1 in
        if (s1 <? lo) || (hi <? s1) then (RuneError, 1%nat) else
        if (sz <=? 2)%nat then
          (Z.lor (Z.shiftl (Z.land s0 mask2) 6) (Z.land s1 maskx), 2%nat)
        else
        match r1 with
        | EmptyString => (RuneError, 1%nat)
        | String c2 r2 =>
          let s2 := b2z c2 in
          if (s2 <? locb) || (hicb <? s2) then (RuneError, 1%nat) else
          if (sz <=? 3)%nat then
            (Z.lor (Z.lor (Z.shiftl (Z.land s0 mask3) 12)
                          (Z.shiftl (Z.land s1 maskx) 6))
                   (Z.land s2 maskx), 3%nat)
          else
          match r2 with
          | EmptyString => (RuneError, 1%nat)
          | String c3 _ =>
            let s3 := b2z c3 in
            if (s3 <? locb) || (hicb <? s3) then (RuneError, 1%nat) else
            (Z.lor (Z.lor (Z.lor (Z.shiftl (Z.land s0 mask4) 18)
                                 (Z.shiftl (Z.land s1 maskx) 12))
                          (Z.shiftl (Z.land s2 maskx) 6))
                   (Z.land s3 maskx), 4%nat)
          end
        end
      end
    end
  end.

(** [utf8.RuneLen]: the number of bytes of the encoding of [r], or -1 when
    [r] is not a value that can be encoded. *)
Definition RuneLen (r : Z) : Z :=
  if r <? 0 then -1
  else if r <=? rune1Max then 1
  else if r <=? rune2Max then 2
  else if (surrogateMin <=? r) && (r <=? surrogateMax) then -1
  else if r <=? rune3Max then 3
  else if r <=? MaxRune then 4
  else -1.

(** [utf8.RuneStart] *)
Definition RuneStart (b : Z) : bool := negb (Z.land b 0xC0 =? 0x80).

(** The backwards scan of [DecodeLastRuneInString]: from [start], step down
    to the nearest byte that can start a rune, not below [lim]. The result
    is [None] when the scan left the range (the code's [start < lim]). *)
Fixpoint scan_back (s : string) (start lim : nat) (fuel : nat) : option nat :=
  match fuel with
  | O => None
  | S fuel' =>
    if (start <? lim)%nat then None
    else if RuneStart (at_ s start) then Some start
    else match start with
         | O => None
         | S start' => scan_back s start' lim fuel'
         end
  end.

(** [utf8.DecodeLastRuneInString]: the last rune of [s] and its width. *)
Definition DecodeLastRuneInString (s : string) : Z * nat :=
  let end_ := String.length s in
  match end_ with
  | O => (RuneError, 0%nat)
  | S start =>
    let r := at_ s start in
    if r <? RuneSelf then (r, 1%nat) else
    let lim := (end_ - UTFMax)%nat in
    let start' :=
      match start with
      | O => O
      | S st =>
        match scan_back s st lim (S UTFMax) with
        | Some k => k
        | None => (lim - 1)%nat
        end
      end in
    let '(r', size) := DecodeRuneInString (slice s start' end_) in
    if (start' + size =? end_)%nat then (r', size) else (RuneError, 1%nat)
  end.

(** [utf8.AppendRune] on an empty buffer, which is what
    [strings.Builder.WriteRune] appends: an invalid rune is written as the
    encoding of [RuneError]. The argument is the rune as a signed 32-bit
    value; the code compares it as [uint32]. *)
Definition encode3 (r : Z) : string :=
  String (z2b (Z.lor t3 (Z.shiftr r 12)))
    (String (z2b (Z.lor tx (Z.land (Z.shiftr r 6) maskx)))
       (String (z2b (Z.lor tx (Z.land r maskx))) EmptyString)).

Definition AppendRune (r : Z) : string :=
  let i := r mod 2 ^ 32 in
  if i <=? rune1Max then String (z2b r) EmptyString
  else if i <=? rune2Max then
    String (z2b (Z.lor t2 (Z.shiftr r 6)))
      (String (z2b (Z.lor tx (Z.land r maskx))) EmptyString)
  else if (MaxRune <? i) || ((surrogateMin <=? i) && (i <=? surrogateMax)) then
    encode3 RuneError
  else if i <=? rune3Max then encode3 r
  else
    String (z2b (Z.lor t4 (Z.shiftr r 18)))
      (String (z2b (Z.lor tx (Z.land (Z.shiftr r 12) maskx)))
         (String (z2b (Z.lor tx (Z.land (Z.shiftr r 6) maskx)))
            (String (z2b (Z.lor tx (Z.land r maskx))) EmptyString))).

End utf8.

(** ** Package [unicode] *)
Module unicode.

Definition MaxASCII : Z := 0x7F.
Definition MaxLatin1 : Z := 0xFF.

(** The table [unicode.White_Space] above Latin-1. *)
Definition White_Space_excludingLatin (r : Z) : bool :=
  (r =? 0x1680)
  || ((0x2000 <=? r) && (r <=? 0x200a))
  || ((0x2028 <=? r) && (r <=? 0x2029))
  || (r =? 0x202f)
  || (r =? 0x205f)
  || (r =? 0x3000).

(** [unicode.IsSpace] *)
Definition IsSpace (r : Z) : bool :=
  if r mod 2 ^ 32 <=? MaxLatin1 then
    (r =? 0x09) || (r =? 0x0A) || (r =? 0x0B) || (r =? 0x0C) || (r =? 0x0D)
    || (r =? 0x20) || (r =? 0x85) || (r =? 0xA0)
  else White_Space_excludingLatin r.

Section CaseTable.

(** [unicode.To(unicode.LowerCase, r)]: the lookup in [unicode.CaseRanges].
    The table is data of the Go distribution; the development is
    parametric in it and nothing is assumed about its entries. *)
Variable To_LowerCase : Z -> Z.

(** [unicode.ToLower] *)
Definition ToLower (r : Z) : Z :=
  if r <=? MaxASCII then
    if (0x41 <=? r) && (r <=? 0x5A) then r + (0x61 - 0x41) else r
  else To_LowerCase r.

End CaseTable.

End unicode.

(** ** Package [strings] *)
Module strings.

(** [strings.Index]: the index of the first instance of [substr] in [s],
    or -1. (The library picks among several search algorithms; all return
    the first match.) *)
Fixpoint Index (s substr : string) : Z :=
  if String.prefix substr s then 0
  else match s with
       | EmptyString => -1
       | String _ t => let i := Index t substr in if i <? 0 then -1 else i + 1
       end.

(** [strings.Contains] *)
Definition Contains (s substr : string) : bool := 0 <=? Index s substr.

(** The loop [for i, r := range s { if f(r) == truth { return i } }] of
    [indexFunc], started at byte [i]. *)
Fixpoint indexFunc_from (fuel : nat) (s : string) (i : nat)
         (f : Z -> bool) (truth : bool) : Z :=
  match fuel with
  | O => -1
  | S fuel' =>
    match drop i s with
    | EmptyString => -1
    | rest =>
      let '(r, size) := utf8.DecodeRuneInString rest in
      if Bool.eqb (f r) truth then Z.of_nat i
      else indexFunc_from fuel' s (i + size) f truth
    end
  end.

Definition indexFunc (s : string) (f : Z -> bool) (truth : bool) : Z :=
  indexFunc_from (S (String.length s)) s 0 f truth.

(** The loop of [lastIndexFunc], with [i] bytes still to scan. *)
Fixpoint lastIndexFunc_from (fuel : nat) (s : string) (i : nat)
         (f : Z -> bool) (truth : bool) : Z :=
  match fuel with
  | O => -1
  | S fuel' =>
    if (0 <? i)%nat then
      let '(r, size) := utf8.DecodeLastRuneInString (slice s 0 i) in
      let i' := (i - size)%nat in
      if Bool.eqb (f r) truth then Z.of_nat i'
      else lastIndexFunc_from fuel' s i' f truth
    else -1
  end.

Definition lastIndexFunc (s : string) (f : Z -> bool) (truth : bool) : Z :=
  lastIndexFunc_from (S (String.length s)) s (String.length s) f truth.

(** [strings.TrimLeftFunc] *)
Definition TrimLeftFunc (s : string) (f : Z -> bool) : string :=
  let i := indexFunc s f false in
  if i =? -1 then EmptyString else drop (Z.to_nat i) s.

(** [strings.TrimRightFunc] *)
Definition TrimRightFunc (s : string) (f : Z -> bool) : string :=
  let i := lastIndexFunc s f false in
  let i' :=
    if (0 <=? i) && (utf8.RuneSelf <=? at_ s (Z.to_nat i)) then
      i + Z.of_nat (snd (utf8.DecodeRuneInString (drop (Z.to_nat i) s)))
    else i + 1 in
  slice s 0 (Z.to_nat i').

(** [strings.TrimFunc] *)
Definition TrimFunc (s : string) (f : Z -> bool) : string :=
  TrimRightFunc (TrimLeftFunc s f) f.

(** The table [asciiSpace]. *)
Definition asciiSpace (c : Z) : bool :=
  (c =? 0x09) || (c =? 0x0A) || (c =? 0x0B) || (c =? 0x0C) || (c =? 0x0D)
  || (c =? 0x20).

(** Where a scan of [TrimSpace] stops: at an index, or at a non-ASCII byte
    that sends the function to its Unicode-aware fallback. *)
Inductive scan : Type :=
| Stop (i : nat)
| NonASCII (i : nat).

(** [for ; start < len(s); start++] of [TrimSpace]. *)
Fixpoint scan_start (rest : string) (start : nat) : scan :=
  match rest with
  | EmptyString => Stop start
  | String c t =>
    if utf8.RuneSelf <=? b2z c then NonASCII start
    else if asciiSpace (b2z c) then scan_start t (S start)
    else Stop start
  end.

(** [for ; stop > start; stop--] of [TrimSpace]. *)
Fixpoint scan_stop (s : string) (start : nat) (stop : nat) : scan :=
  match stop with
  | O => Stop stop
  | S stop' =>
    if (start <? stop)%nat then
      let c := at_ s stop' in
      if utf8.RuneSelf <=? c then NonASCII stop
      else if asciiSpace c then scan_stop s start stop'
      else Stop stop
    else Stop stop
  end.

(** [strings.TrimSpace] *)
Definition TrimSpace (s : string) : string :=
  match scan_start s 0 with
  | NonASCII start => TrimFunc (drop start s) unicode.IsSpace
  | Stop start =>
    match scan_stop s start (String.length s) with
    | NonASCII stop => TrimRightFunc (slice s start stop) unicode.IsSpace
    | Stop stop => slice s start stop
    end
  end.

Section Mapping.

Variable mapping : Z -> Z.

(** What both loops of [strings.Map] write for a mapped rune [r]: nothing
    when [r] is negative, its encoding otherwise. *)
Definition write_mapped (r : Z) : string :=
  if 0 <=? r then utf8.AppendRune r else EmptyString.

(** The second loop of [strings.Map]: every rune of the rest is mapped and
    written. *)
Fixpoint Map_rest (fuel : nat) (s : string) : string :=
  match fuel with
  | O => EmptyString
  | S fuel' =>
    match s with
    | EmptyString => EmptyString
    | _ =>
      let '(c, width) := utf8.DecodeRuneInString s in
      write_mapped (mapping c) ++ Map_rest fuel' (drop width s)
    end
  end.

(** The first loop of [strings.Map]: runes the mapping leaves alone are kept
    byte for byte, up to the first rune that changes or the first invalid
    byte; there the mapped rune is written, [width] bytes are skipped and the
    second loop takes over. [size] is the step of the [range] clause. *)
Fixpoint Map_first (fuel : nat) (s : string) : string :=
  match fuel with
  | O => EmptyString
  | S fuel' =>
    match s with
    | EmptyString => EmptyString
    | _ =>
      let '(c, size) := utf8.DecodeRuneInString s in
      let r := mapping c in
      if (r =? c) && negb (c =? utf8.RuneError) then
        take size s ++ Map_first fuel' (drop size s)
      else
        let width :=
            if c =? utf8.RuneError then size else Z.to_nat (utf8.RuneLen c) in
        if (c =? utf8.RuneError) && negb (width =? 1)%nat && (r =? c) then
          take size s ++ Map_first fuel' (drop size s)
        else
          write_mapped r ++ Map_rest fuel' (drop width s)
    end
  end.

(** [strings.Map] *)
Definition Map (s : string) : string := Map_first (String.length s) s.

End Mapping.

Section CaseTable.

Variable To_LowerCase : Z -> Z.

Definition isUpperASCII (c : Z) : bool := (0x41 <=? c) && (c <=? 0x5A).

Definition lowerASCII (c : Z) : Z :=
  if isUpperASCII c then c + (0x61 - 0x41) else c.

(** [strings.ToLower]: a fast path for strings of ASCII bytes only, and
    [Map(unicode.ToLower, s)] otherwise. *)
Definition ToLower (s : string) : string :=
  let isASCII := all_bytes (fun c => c <? utf8.RuneSelf) s in
  let hasUpper := negb (all_bytes (fun c => negb (isUpperASCII c)) s) in
  if isASCII then
    if negb hasUpper then s else map_bytes lowerASCII s
  else Map (unicode.ToLower To_LowerCase) s.

End CaseTable.

End strings.

(** ** Formatting: the verbs the program uses *)
Module fmt.

(** [%d] on an [int]. *)
Definition d (n : Z) : string := NilZero.string_of_int (Z.to_int n).

Definition pad2 (n : Z) : string :=
  if n <? 10 then "0" ++ d n else d n.

End fmt.

(** ** The outside world

    Everything the program learns from its environment comes through three
    calls: [exec.LookPath], [Cmd.Output] and [time.Now]. (The standard logger
    reads the clock too, to stamp its records; that reading stays inside the
    [Log] event and is not a call of the program.) The world is
    an oracle: a function from the number of such calls made so far to what
    the system would answer at that moment, so two calls with the same
    arguments may be answered differently. *)
Module Sys.

(** A Go pair [(value, err)] with [err] read through [err.Error()]. *)
Inductive result (A : Type) : Type :=
| Ok (a : A)
| Err (e : string).
Arguments Ok {A} a.
Arguments Err {A} e.

Record Snapshot : Type := {
  (** [exec.LookPath(file)] *)
  look_path : string -> result string;
  (** [exec.Command(name, args...).Output()]: standard output or error *)
  output : string -> list string -> result string;
  (** [time.Now()], as seconds of local time since an origin at midnight *)
  now : Z
}.

Definition Oracle : Type := nat -> Snapshot.

End Sys.
Import Sys.

(** ** Package [time] *)
Module time.

(** [time.Duration] counts nanoseconds. *)
Definition Second : Z := 1000000000.

(** [t.Format("15:04:05")]: hour, minute and second, two digits each. *)
Definition Format_15_04_05 (t : Z) : string :=
  fmt.pad2 ((t / 3600) mod 24) ++ ":" ++
  fmt.pad2 ((t / 60) mod 60) ++ ":" ++
  fmt.pad2 (t mod 60).

End time.

(** ** The program *)

Definition nl : string := String (ascii_of_nat 10) EmptyString.

Record ActivityInfo : Type := {
  WindowTitle : string;
  ProcessName : string;
  Timestamp : Z
}.

(** What the program does to the outside world. *)
Inductive Event : Type :=
| Log (msg : string)
  (** one record of the standard logger (standard error); [msg] is the
      formatted message, which the logger prefixes with the date and time
      and ends with a newline if it has none *)
| Stdout (text : string)
  (** bytes written to standard output *)
| Sleep (d : Z)
  (** [time.Sleep(d)], [d] in nanoseconds *).

(** The machine state threaded through the program. [consecutiveErrors] is
    the local variable of [monitorActivity]; [writes] is a ghost field that
    records every value assigned to it, oldest first. *)
Record Machine : Type := {
  calls : nat;
  out : list Event;
  consecutiveErrors : Z;
  writes : list Z
}.

Definition M (A : Type) : Type := Machine -> A * Machine.

Definition ret {A} (a : A) : M A := fun m => (a, m).

Definition bind {A B} (c : M A) (k : A -> M B) : M B :=
  fun m => let '(a, m') := c m in k a m'.

Declare Scope monad_scope.
Delimit Scope monad_scope with monad.
Notation "x <- c ;; k" := (bind c (fun x => k))
  (at level 61, c at next level, right associativity) : monad_scope.
Notation "c ;; k" := (bind c (fun _ => k))
  (at level 61, right associativity) : monad_scope.
Local Open Scope monad_scope.

(** The go [int] is 64 bits wide here; arithmetic wraps around. *)
Definition wrap_int (z : Z) : Z := (z + 2 ^ 63) mod 2 ^ 64 - 2 ^ 63.

Section Program.

Variable To_LowerCase : Z -> Z.
Variable env : Oracle.

Definition ask {A} (q : Snapshot -> A) : M A :=
  fun m => (q (env (calls m)),
            {| calls := S (calls m); out := out m;
               consecutiveErrors := consecutiveErrors m; writes := writes m |}).

Definition emit (e : Event) : M unit :=
  fun m => (tt,
            {| calls := calls m; out := out m ++ [e];
               consecutiveErrors := consecutiveErrors m; writes := writes m |}).

Definition get_consecutiveErrors : M Z :=
  fun m => (consecutiveErrors m, m).

Definition set_consecutiveErrors (v : Z) : M unit :=
  fun m => (tt,
            {| calls := calls m; out := out m;
               consecutiveErrors := v; writes := writes m ++ [v] |}).

Definition exec_LookPath (file : string) : M (result string) :=
  ask (fun w => look_path w file).

Definition exec_Output (name : string) (args : list string) : M (result string) :=
  ask (fun w => output w name args).

Definition time_Now : M Z := ask now.

Definition time_Sleep (d : Z) : M unit := emit (Sleep d).

(** [log.Printf] with the format already applied. *)
Definition log_Printf (msg : string) : M unit := emit (Log msg).

(** [log.Println] of one string. *)
Definition log_Println (s : string) : M unit := emit (Log (s ++ nl)).

(** [fmt.Println] of one string. *)
Definition fmt_Println (s : string) : M unit := emit (Stdout (s ++ nl)).

(** [fmt.Printf] with the format already applied. *)
Definition fmt_Printf (text : string) : M unit := emit (Stdout text).

(** [checkDependencies]: [None] is the nil error. *)
Definition checkDependencies : M (option string) :=
  r <- exec_LookPath "xdotool" ;;
  match r with
  | Err _ =>
    ret (Some "xdotool is not installed. Please run: sudo apt-get install xdotool")
  | Ok _ =>
    r' <- exec_Output "xdotool" ["getdisplaygeometry"] ;;
    match r' with
    | Err err =>
      ret (Some ("cannot connect to X display. Make sure you're running in X11 session: "
                 ++ err))
    | Ok _ => ret None
    end
  end.

Definition getActiveWindowTitle : M (result string) :=
  r <- exec_Output "xdotool" ["getactivewindow"] ;;
  match r with
  | Err err => ret (Err ("failed to get active window ID: " ++ err))
  | Ok windowID =>
    r' <- exec_Output "xdotool" ["getwindowname"; strings.TrimSpace windowID] ;;
    match r' with
    | Err err => ret (Err ("failed to get window name: " ++ err))
    | Ok output => ret (Ok (strings.TrimSpace output))
    end
  end.

Definition getActiveProcessName : M (result string) :=
  r <- exec_Output "xdotool" ["getactivewindow"] ;;
  match r with
  | Err err => ret (Err ("failed to get active window ID: " ++ err))
  | Ok windowID =>
    r' <- exec_Output "xdotool" ["getwindowpid"; strings.TrimSpace windowID] ;;
    match r' with
    | Err err => ret (Err ("failed to get window PID: " ++ err))
    | Ok pidBytes =>
      let pid := strings.TrimSpace pidBytes in
      r'' <- exec_Output "ps" ["-p"; pid; "-o"; "comm="] ;;
      match r'' with
      | Err err => ret (Err ("failed to get process name: " ++ err))
      | Ok output => ret (Ok (strings.TrimSpace output))
      end
    end
  end.

Definition maxConsecutiveErrors : Z := 3.

(** How one iteration of the loop of [monitorActivity] ended: by one of its
    three [continue] statements or at the end of the body. *)
Inductive Tick : Type :=
| TitleErrorBackoff
| TitleErrorRetry
| ProcessError
| Sampled (activity : ActivityInfo).

(** The [switch] under "Application specific logging". *)
Definition application_logging (processName : string) : M unit :=
  if strings.Contains (strings.ToLower To_LowerCase processName) "chrome" then
    fmt_Println "→ Browser activity detected"
  else if strings.Contains (strings.ToLower To_LowerCase processName) "code" then
    fmt_Println "→ VS Code activity detected"
  else if strings.Contains (strings.ToLower To_LowerCase processName) "nvim" then
    fmt_Println "→ Neovim activity detected"
  else ret tt.

(** The line printed for a sample. *)
Definition activity_line (activity : ActivityInfo) : string :=
  "[" ++ time.Format_15_04_05 (Timestamp activity) ++ "] Process: "
      ++ ProcessName activity ++ " | Window: " ++ WindowTitle activity ++ nl.

(** The body of the [for] loop of [monitorActivity]. *)
Definition tick (interval : Z) : M Tick :=
  r <- getActiveWindowTitle ;;
  match r with
  | Err err =>
    c <- get_consecutiveErrors ;;
    set_consecutiveErrors (wrap_int (c + 1)) ;;
    c <- get_consecutiveErrors ;;
    log_Printf ("Error getting window title (attempt " ++ fmt.d c ++ "/"
                ++ fmt.d maxConsecutiveErrors ++ "): " ++ err) ;;
    if maxConsecutiveErrors <=? c then
      log_Println "Too many consecutive errors. Possible causes:" ;;
      log_Println "1. No X11 session active" ;;
      log_Println "2. Running in Wayland instead of X11" ;;
      log_Println "3. No active window" ;;
      log_Println "4. Insufficient permissions" ;;
      log_Println (nl ++ "Trying again in 10 seconds...") ;;
      time_Sleep (10 * time.Second) ;;
      set_consecutiveErrors 0 ;;
      ret TitleErrorBackoff
    else
      time_Sleep interval ;;
      ret TitleErrorRetry
  | Ok windowTitle =>
    set_consecutiveErrors 0 ;;
    r' <- getActiveProcessName ;;
    match r' with
    | Err err =>
      log_Printf ("Error getting process name: " ++ err) ;;
      time_Sleep interval ;;
      ret ProcessError
    | Ok processName =>
      t <- time_Now ;;
      let activity := {| WindowTitle := windowTitle;
                         ProcessName := processName;
                         Timestamp := t |} in
      fmt_Printf (activity_line activity) ;;
      application_logging processName ;;
      time_Sleep interval ;;
      ret (Sampled activity)
    end
  end.

(** [fuel] iterations of the loop. *)
Fixpoint loop (fuel : nat) (interval : Z) : M (list Tick) :=
  match fuel with
  | O => ret []
  | S fuel' =>
    t <- tick interval ;;
    ts <- loop fuel' interval ;;
    ret (t :: ts)
  end.

(** [monitorActivity], observed for [fuel] iterations of its loop; the
    result lists how each iteration ended. *)
Definition monitorActivity (fuel : nat) (interval : Z) : M (list Tick) :=
  set_consecutiveErrors 0 ;;
  loop fuel interval.

(** How an observation of [main] ends: the process has exited with a code,
    or it is still inside [monitorActivity] after the observed iterations. *)
Inductive Status : Type :=
| Exited (code : Z)
| Running (ticks : list Tick).

(** [main], with its loop observed for [fuel] iterations. [log.Fatalf] logs
    and calls [os.Exit(1)]. *)
Definition main (fuel : nat) : M Status :=
  log_Println "Starting activity monitor..." ;;
  e <- checkDependencies ;;
  match e with
  | Some err =>
    log_Printf ("Dependency check failed: " ++ err) ;;
    ret (Exited 1)
  | None =>
    fmt_Println "All dependencies checked. Starting monitoring..." ;;
    fmt_Println "Press Ctrl+C to stop" ;;
    ts <- monitorActivity fuel (5 * time.Second) ;;
    ret (Running ts)
  end.

End Program.

(** The state in which the process starts. *)
Definition boot : Machine :=
  {| calls := 0; out := []; consecutiveErrors := 0; writes := [] |}.

(** ** Reading a trace *)

Fixpoint stdout_of (evs : list Event) : list string :=
  match evs with
  | [] => []
  | Stdout text :: r => text :: stdout_of r
  | _ :: r => stdout_of r
  end.

Fixpoint sleeps_of (evs : list Event) : list Z :=
  match evs with
  | [] => []
  | Sleep d :: r => d :: sleeps_of r
  | _ :: r => sleeps_of r
  end.

Fixpoint logs_of (evs : list Event) : list string :=
  match evs with
  | [] => []
  | Log msg :: r => msg :: logs_of r
  | _ :: r => logs_of r
  end.

(** The state after the assignment [consecutiveErrors = 0], at the entry of
    [monitorActivity] and after a successful window-title query: the counter
    is reset, nothing else changes. *)
Definition after_reset (m : Machine) : Machine :=
  {| calls := calls m; out := out m;
     consecutiveErrors := 0; writes := writes m ++ [0] |}.

(** ** Observers of a run *)

(** The record logged for a failed window-title query with the counter at
    [c]. *)
Definition title_error_record (c : Z) (err : string) : Event :=
  Log ("Error getting window title (attempt " ++ fmt.d c ++ "/"
       ++ fmt.d 3 ++ "): " ++ err).

Section Observers.

Variable To_LowerCase : Z -> Z.
Variable env : Oracle.

(** What the classification switch prints on standard output. *)
Definition tags_printed (processName : string) : list Event :=
  out (snd (application_logging To_LowerCase processName
              {| calls := 0; out := []; consecutiveErrors := 0; writes := [] |})).

(** Whether the window-title query of a tick started in [m] succeeds. *)
Definition title_ok (m : Machine) : bool :=
  match fst (getActiveWindowTitle env m) with
  | Ok _ => true
  | Err _ => false
  end.

(** For [fuel] ticks from [m]: whether each tick's window-title query
    succeeds. *)
Fixpoint title_outcomes (fuel : nat) (interval : Z) (m : Machine) : list bool :=
  match fuel with
  | O => []
  | S fuel' =>
    title_ok m :: title_outcomes fuel' interval (snd (tick To_LowerCase env interval m))
  end.

(** For [fuel] ticks from [m]: the value of [consecutiveErrors] at the end
    of each tick. *)
Fixpoint counters_after_ticks (fuel : nat) (interval : Z) (m : Machine) : list Z :=
  match fuel with
  | O => []
  | S fuel' =>
    let m' := snd (tick To_LowerCase env interval m) in
    consecutiveErrors m' :: counters_after_ticks fuel' interval m'
  end.

End Observers.

(** A sequence of assignments to the counter respects the threshold: every
    value lies between 0 and 3, and a 3 is followed at once by a 0. *)
Fixpoint within_threshold (ws : list Z) : Prop :=
  match ws with
  | [] => True
  | v :: r =>
    0 <= v <= 3 /\ (v = 3 -> exists r', r = 0 :: r') /\ within_threshold r
  end.

(** The counter as a function of the window-title outcomes alone: a success
    resets it, a failure increments it, and the increment that reaches 3
    resets it. *)
Fixpoint counter_model (c : Z) (titles : list bool) : list Z :=
  match titles with
  | [] => []
  | ok :: r =>
    let c' := if ok then 0 else if 3 <=? c + 1 then 0 else c + 1 in
    c' :: counter_model c' r
  end.

(** ** Substrings and case *)

(** [w] occurs in [s]. *)
Definition occurs (w s : string) : Prop :=
  exists l r, s = (l ++ w ++ r)%string.

(** An ASCII byte. *)
Definition is_ascii (c : Z) : bool := c <? utf8.RuneSelf.

(** No ASCII space at either end (the empty string included). *)
Definition trimmed (s : string) : Prop :=
  strings.asciiSpace (at_ s 0) = false /\
  strings.asciiSpace (at_ s (String.length s - 1)) = false.

(** Whether a tick ended by the backoff, and whether it ended by the
    ordinary retry after a failed window-title query. *)
Definition is_backoff (t : Tick) : bool :=
  match t with
  | TitleErrorBackoff => true
  | _ => false
  end.

Definition is_retry (t : Tick) : bool :=
  match t with
  | TitleErrorRetry => true
  | _ => false
  end.

(** The first record of the backoff hint, and how many times a message was
    logged in a trace. *)
Definition hint_header : string :=
  "Too many consecutive errors. Possible causes:" ++ nl.

Definition count_logged (msg : string) (evs : list Event) : nat :=
  List.length (filter (String.eqb msg) (logs_of evs)).

(** The six records of the backoff hint. *)
Definition hint_records : list string :=
  [hint_header;
   "1. No X11 session active" ++ nl;
   "2. Running in Wayland instead of X11" ++ nl;
   "3. No active window" ++ nl;
   "4. Insufficient permissions" ++ nl;
   nl ++ "Trying again in 10 seconds..." ++ nl].

(** The records the loop can log: a failed window-title query with an
    attempt number from 1 to 3, a failed process-name query, or a record of
    the hint. *)
Definition loop_record (msg : string) : Prop :=
  (exists c err, 1 <= c <= 3 /\ Log msg = title_error_record c err) \/
  (exists err, msg = "Error getting process name: " ++ err) \/
  In msg hint_records.

(** What a tick with result [t] prints on standard output and how long it
    sleeps, as functions of the result alone. *)
Definition printed_by (To_LowerCase : Z -> Z) (t : Tick) : list string :=
  match t with
  | Sampled a =>
    activity_line a
      :: stdout_of (out (snd (application_logging To_LowerCase (ProcessName a)
                                {| calls := 0; out := []; consecutiveErrors := 0;
                                   writes := [] |})))
  | _ => []
  end.

Definition slept_after (interval : Z) (t : Tick) : Z :=
  match t with
  | TitleErrorBackoff => 10 * time.Second
  | _ => interval
  end.

(** ** The shape of a report

    The number of newline bytes of a text, and the clock reading
    hour:minute:second written with two decimal digits each. *)

Fixpoint count_nl (s : string) : nat :=
  match s with
  | EmptyString => 0%nat
  | String c t =>
    ((if Ascii.eqb c (ascii_of_nat 10) then 1 else 0) + count_nl t)%nat
  end.

Definition digit (n : Z) : ascii := ascii_of_nat (48 + Z.to_nat n).

Definition two_digits (n : Z) : string :=
  String (digit (n / 10)) (String (digit (n mod 10)) EmptyString).

Definition clock_text (t : Z) : string :=
  two_digits ((t / 3600) mod 24) ++ ":" ++
  two_digits ((t / 60) mod 60) ++ ":" ++
  two_digits (t mod 60).

(** ** Control flow of the loop

    How the execution of the body of a [for] statement ends in Go: at its
    closing brace, by [continue], by [break], by [return], or by ending the
    process with [os.Exit]. *)
Inductive Flow : Type :=
| FallsThrough
| Continues
| Breaks
| Returns
| Exits (code : Z).

(** How each way through the body of the loop of [monitorActivity] ends:
    the three failure paths end by the [continue] statements after the
    backoff sleep, after the retry sleep and after the process-name error;
    the path that reports a Sample reaches the closing brace. The body has no
    [break] and no [return], and it logs with [log.Printf] and
    [log.Println], which do not end the process. *)
Definition tick_flow (t : Tick) : Flow :=
  match t with
  | TitleErrorBackoff => Continues
  | TitleErrorRetry => Continues
  | ProcessError => Continues
  | Sampled _ => FallsThrough
  end.

(** Where an observation of a [for] statement without condition stands. *)
Inductive LoopEnd : Type :=
| Looping
| LeftLoop
| FunctionReturned
| ProcessExited (code : Z).

(** [for { body }], observed for at most [fuel] iterations: the next
    iteration starts after a body that fell through or continued; [break]
    leaves the loop, [return] the function, [os.Exit] the process. *)
Fixpoint for_ever (fuel : nat) (body : M (Tick * Flow)) : M (list Tick * LoopEnd) :=
  match fuel with
  | O => ret ([], Looping)
  | S fuel' =>
    r <- body ;;
    match snd r with
    | FallsThrough | Continues =>
      rest <- for_ever fuel' body ;;
      ret (fst r :: fst rest, snd rest)
    | Breaks => ret ([fst r], LeftLoop)
    | Returns => ret ([fst r], FunctionReturned)
    | Exits code => ret ([fst r], ProcessExited code)
    end
  end.

Section ControlFlow.

Variable To_LowerCase : Z -> Z.
Variable env : Oracle.

(** The body of the loop with the way it ends. *)
Definition tick_with_flow (interval : Z) : M (Tick * Flow) :=
  t <- tick To_LowerCase env interval ;;
  ret (t, tick_flow t).

(** [monitorActivity] with the control flow of its [for] statement, which
    is its last statement: leaving the loop would end the function. *)
Definition monitorActivity_flow (fuel : nat) (interval : Z)
  : M (list Tick * LoopEnd) :=
  set_consecutiveErrors 0 ;;
  for_ever fuel (tick_with_flow interval).

(** [main] with the control flow of the loop: were [monitorActivity] to
    return, [main] would return and the process end with status 0. *)
Definition main_flow (fuel : nat) : M Status :=
  log_Println "Starting activity monitor..." ;;
  e <- checkDependencies env ;;
  match e with
  | Some err =>
    log_Printf ("Dependency check failed: " ++ err) ;;
    ret (Exited 1)
  | None =>
    fmt_Println "All dependencies checked. Starting monitoring..." ;;
    fmt_Println "Press Ctrl+C to stop" ;;
    r <- monitorActivity_flow fuel (5 * time.Second) ;;
    match snd r with
    | Looping => ret (Running (fst r))
    | LeftLoop => ret (Exited 0)
    | FunctionReturned => ret (Exited 0)
    | ProcessExited code => ret (Exited code)
    end
  end.

End ControlFlow.

(** ** The classification as the specification words it

    The process name is lower-cased and checked for known substrings,
    first match wins: "chrome", then "code", then "nvim". *)

Inductive Category : Type :=
| Browser
| CodeEditor
| TerminalEditor.

Definition spec_categories : list (string * Category) :=
  [("chrome", Browser); ("code", CodeEditor); ("nvim", TerminalEditor)].

(** The category of the first entry whose substring occurs in [lowered],
    if any. *)
Inductive spec_first_match (lowered : string) :
  list (string * Category) -> option Category -> Prop :=
| no_entry : spec_first_match lowered [] None
| entry_hit (w : string) (c : Category) rest :
    occurs w lowered ->
    spec_first_match lowered ((w, c) :: rest) (Some c)
| entry_miss (w : string) (c : Category) rest res :
    ~ occurs w lowered ->
    spec_first_match lowered rest res ->
    spec_first_match lowered ((w, c) :: rest) res.

Definition spec_tag (c : Category) : string :=
  match c with
  | Browser => "→ Browser activity detected"
  | CodeEditor => "→ VS Code activity detected"
  | TerminalEditor => "→ Neovim activity detected"
  end.

(** One line for the category found, nothing otherwise. *)
Definition spec_tag_events (c : option Category) : list Event :=
  match c with
  | Some c => [Stdout (spec_tag c ++ nl)]
  | None => []
  end.

(** [name] contains [w] up to the case of its ASCII letters. *)
Definition contains_any_case (w name : string) : Prop :=
  exists l v r,
    name = (l ++ v ++ r)%string /\ map_bytes strings.lowerASCII v = w.

(** ** Example worlds *)

(** A session in which no command succeeds, though [xdotool] is installed. *)
Definition no_session : Oracle :=
  fun _ =>
    {| look_path := fun _ => Ok "/usr/bin/xdotool";
       output := fun _ _ => Err "exit status 1";
       now := 47100 |}.

(** A machine without [xdotool]. *)
Definition no_tool : Oracle :=
  fun _ =>
    {| look_path := fun _ => Err "executable file not found in $PATH";
       output := fun _ _ => Err "executable file not found in $PATH";
       now := 47100 |}.

(** A desktop with three windows: window 1 is a mail client, window 2 an
    editor in a terminal, window 3 has a title and no process identifier.
    [focus n] is the identifier of the active window at call [n]. *)
Definition desktop (focus : nat -> string) : Oracle :=
  fun n =>
    {| look_path := fun _ => Ok "/usr/bin/xdotool";
       output := fun _ args =>
         match args with
         | ["getdisplaygeometry"] => Ok ("1920 1080" ++ nl)
         | ["getactivewindow"] => Ok (focus n ++ nl)
         | ["getwindowname"; id] =>
           if (id =? "1")%string then Ok ("Inbox" ++ nl)
           else if (id =? "2")%string then Ok ("notes.txt" ++ nl)
           else if (id =? "3")%string then Ok ("Desktop" ++ nl)
           else Err "exit status 1"
         | ["getwindowpid"; id] =>
           if (id =? "1")%string then Ok ("100" ++ nl)
           else if (id =? "2")%string then Ok ("200" ++ nl)
           else Err "exit status 1"
         | ["-p"; pid; "-o"; "comm="] =>
           if (pid =? "100")%string then Ok ("thunderbird" ++ nl)
           else if (pid =? "200")%string then Ok ("nvim" ++ nl)
           else Err "exit status 1"
         | _ => Err "exit status 1"
         end;
       now := 47100 + Z.of_nat n |}.

(** The session comes up after two failed calls, with window 1 active. *)
Definition late_session : Oracle :=
  fun n => if (n <? 2)%nat then no_session n else desktop (fun _ => "1") n.

(** The focus moves from window 1 to window 2 between the second and the
    third call. *)
Definition focus_moves : Oracle :=
  desktop (fun n => if (n <? 2)%nat then "1" else "2").

(** A window whose title has two lines. *)
Definition two_line_title : Oracle :=
  fun n =>
    {| look_path := fun _ => Ok "/usr/bin/xdotool";
       output := fun _ args =>
         match args with
         | ["getactivewindow"] => Ok ("7" ++ nl)
         | ["getwindowname"; _] => Ok ("build log" ++ nl ++ "step 2" ++ nl)
         | ["getwindowpid"; _] => Ok ("300" ++ nl)
         | _ => Ok ("xterm" ++ nl)
         end;
       now := 47100 + Z.of_nat n |}.

(** A machine state met at the head of the loop after two failed ticks. *)
Definition two_errors : Machine :=
  {| calls := 2; out := []; consecutiveErrors := 2; writes := [0; 1; 2] |}.

(** ** The library functions on sample inputs *)

Example TrimSpace_newline : strings.TrimSpace ("12345" ++ nl) = "12345".
Proof. reflexivity. Qed.

Example TrimSpace_inner : strings.TrimSpace "  a b  " = "a b".
Proof. reflexivity. Qed.

Example TrimSpace_unicode : strings.TrimSpace (" é→  ") = "é→".
Proof. reflexivity. Qed.

Example DecodeRune_arrow : utf8.DecodeRuneInString "→ x" = (0x2192, 3%nat).
Proof. reflexivity. Qed.

Example AppendRune_arrow : utf8.AppendRune 0x2192 = "→".
Proof. reflexivity. Qed.

Example ToLower_ascii : strings.ToLower (fun r => r) "Google-Chrome" = "google-chrome".
Proof. reflexivity. Qed.

Example ToLower_unicode : strings.ToLower (fun r => r) "éCHROME→" = "échrome→".
Proof. reflexivity. Qed.

Example Index_first : strings.Index "abcabc" "ca" = 2 /\ strings.Index "bash" "code" = -1.
Proof. split; reflexivity. Qed.

Example fmt_d_values : fmt.d 0 = "0" /\ fmt.d 3 = "3" /\ fmt.d (-12) = "-12".
Proof. repeat split; reflexivity. Qed.

Example Format_afternoon : time.Format_15_04_05 47105 = "13:05:05".
Proof. reflexivity. Qed.

(** ** Facts about byte strings *)

Section StringFacts.

Lemma append_assoc (a b c : string) : ((a ++ b) ++ c = a ++ (b ++ c))%string.
Proof. induction a as [| x a IH]; simpl; [| rewrite IH]; reflexivity. Qed.

Lemma append_nil_r (a : string) : (a ++ "" = a)%string.
Proof. induction a as [| x a IH]; simpl; [| rewrite IH]; reflexivity. Qed.

Lemma length_append (a b : string) :
  String.length (a ++ b) = (String.length a + String.length b)%nat.
Proof. induction a as [| x a IH]; simpl; [| rewrite IH]; reflexivity. Qed.

Lemma drop_append (n : nat) (a b : string) :
  (n <= String.length a)%nat -> drop n (a ++ b) = (drop n a ++ b)%string.
Proof.
  revert a. induction n as [| n IH]; intros a H; [reflexivity |].
  destruct a as [| x a]; simpl in *; [lia |]. apply IH. lia.
Qed.

Lemma length_drop (n : nat) (a : string) :
  String.length (drop n a) = (String.length a - n)%nat.
Proof.
  revert a. induction n as [| n IH]; intros a; simpl; [lia |].
  destruct a as [| x a]; simpl; [reflexivity | apply IH].
Qed.

Lemma b2z_range (c : ascii) : 0 <= b2z c < 256.
Proof.
  unfold b2z. pose proof (N_ascii_bounded c). lia.
Qed.

Lemma z2b_b2z (c : ascii) : z2b (b2z c) = c.
Proof.
  unfold z2b. rewrite Z.mod_small by apply b2z_range.
  unfold b2z. rewrite N2Z.id. apply ascii_N_embedding.
Qed.

Lemma b2z_z2b (x : Z) : 0 <= x < 256 -> b2z (z2b x) = x.
Proof.
  intros H. unfold b2z, z2b. rewrite Z.mod_small by assumption.
  rewrite N_ascii_embedding by lia. lia.
Qed.

Lemma map_bytes_append (f : Z -> Z) (a b : string) :
  map_bytes f (a ++ b) = (map_bytes f a ++ map_bytes f b)%string.
Proof. induction a as [| x a IH]; simpl; [| rewrite IH]; reflexivity. Qed.

Lemma all_bytes_append (p : Z -> bool) (a b : string) :
  all_bytes p (a ++ b) = all_bytes p a && all_bytes p b.
Proof.
  induction a as [| x a IH]; simpl; [reflexivity |].
  rewrite IH, andb_assoc. reflexivity.
Qed.

(** *** Substrings *)

Lemma prefix_append (w s : string) :
  String.prefix w s = true <-> exists r, s = (w ++ r)%string.
Proof.
  revert s. induction w as [| x w IH]; intros s.
  - split; [intros _; exists s; reflexivity | destruct s; reflexivity].
  - destruct s as [| y s]; simpl.
    + split; [discriminate | intros [r H]; discriminate].
    + destruct (ascii_dec x y) as [-> | N].
      * rewrite IH. split; intros [r H]; exists r; congruence.
      * split; [discriminate | intros [r H]; congruence].
Qed.

Lemma Index_lower_bound (s w : string) : -1 <= strings.Index s w.
Proof.
  induction s as [| c s IH]; cbn [strings.Index].
  - destruct (String.prefix w ""); lia.
  - destruct (String.prefix w (String c s)); [lia |].
    destruct (Z.ltb_spec (strings.Index s w) 0); lia.
Qed.

Lemma Contains_occurs (s w : string) :
  strings.Contains s w = true <-> occurs w s.
Proof.
  unfold strings.Contains. rewrite Z.leb_le.
  induction s as [| c s IH]; cbn [strings.Index].
  - destruct (String.prefix w "") eqn:P.
    + split; [| lia]. intros _. apply prefix_append in P as [r E].
      exists ""%string, r. exact E.
    + split; [lia |]. intros (l & r & E).
      destruct l; [| discriminate]. simpl in E.
      assert (String.prefix w "" = true) by (apply prefix_append; eauto).
      congruence.
  - destruct (String.prefix w (String c s)) eqn:P.
    + split; [| lia]. intros _. apply prefix_append in P as [r E].
      exists ""%string, r. exact E.
    + pose proof (Index_lower_bound s w) as B.
      destruct (Z.ltb_spec (strings.Index s w) 0) as [L | L].
      * split; [lia |]. intros (l & r & E).
        destruct l as [| x l]; simpl in E.
        -- assert (String.prefix w (String c s) = true)
             by (apply prefix_append; eauto).
           congruence.
        -- injection E as _ E. assert (occurs w s) by (exists l, r; exact E).
           apply IH in H. lia.
      * split; [| lia]. intros _.
        destruct (proj1 IH L) as (l & r & E).
        exists (String c l), r. simpl. congruence.
Qed.

(** *** Lower-casing keeps ASCII runs in place *)

Lemma lowerASCII_range (c : Z) :
  0 <= c < 128 -> 0 <= strings.lowerASCII c < 128.
Proof.
  intros H. unfold strings.lowerASCII, strings.isUpperASCII.
  destruct (Z.leb_spec 0x41 c); destruct (Z.leb_spec c 0x5A); simpl; lia.
Qed.

Lemma map_lower_fixes (s : string) :
  all_bytes (fun c => negb (strings.isUpperASCII c)) s = true ->
  map_bytes strings.lowerASCII s = s.
Proof.
  induction s as [| c s IH]; simpl; [reflexivity |].
  intros H. apply andb_prop in H as [H1 H2].
  unfold strings.lowerASCII at 1.
  destruct (strings.isUpperASCII (b2z c)); [discriminate |].
  rewrite z2b_b2z, IH by assumption. reflexivity.
Qed.

Lemma ascii_of_lowered (v : string) :
  all_bytes is_ascii (map_bytes strings.lowerASCII v) = true ->
  all_bytes is_ascii v = true.
Proof.
  induction v as [| c v IH]; simpl; [reflexivity |].
  intros H. apply andb_prop in H as [H1 H2]. rewrite IH by assumption.
  rewrite andb_true_r. unfold is_ascii, utf8.RuneSelf in *.
  pose proof (b2z_range c) as R.
  destruct (Z.ltb_spec (b2z c) 0x80) as [L | L]; [reflexivity |].
  unfold strings.lowerASCII, strings.isUpperASCII in H1.
  destruct (Z.leb_spec 0x41 (b2z c)); destruct (Z.leb_spec (b2z c) 0x5A);
    simpl in H1; try lia;
    rewrite z2b_b2z in H1; apply Z.ltb_lt in H1; lia.
Qed.

Lemma decode_ascii (c : ascii) (t : string) :
  is_ascii (b2z c) = true ->
  utf8.DecodeRuneInString (String c t) = (b2z c, 1%nat).
Proof.
  unfold is_ascii, utf8.RuneSelf. intros H. apply Z.ltb_lt in H.
  unfold utf8.DecodeRuneInString, utf8.first.
  destruct (Z.ltb_spec (b2z c) 0x80); [reflexivity | lia].
Qed.

(** A sequence of two bytes or more is accepted only if its second byte is
    a continuation byte, so decoding never runs into an ASCII byte. *)
Lemma first_accepts_continuation (s0 : Z) (sz : nat) (lo hi : Z) :
  utf8.first s0 = utf8.Seq sz lo hi ->
  0x80 <= lo /\ hi <= 0xBF /\ (2 <= sz <= 4)%nat.
Proof.
  unfold utf8.first, utf8.locb, utf8.hicb.
  repeat match goal with
         | |- context [if ?b then _ else _] => destruct b
         end; intros E; try discriminate; injection E as <- <- <-; lia.
Qed.

Lemma decode_width (l : string) (a : ascii) (t : string) :
  l <> ""%string ->
  is_ascii (b2z a) = true ->
  (1 <= snd (utf8.DecodeRuneInString (l ++ String a t)) <= String.length l)%nat.
Proof.
  unfold is_ascii, utf8.RuneSelf. intros Hl Ha. apply Z.ltb_lt in Ha.
  destruct l as [| c0 l]; [congruence |]. clear Hl.
  cbn [String.append]. unfold utf8.DecodeRuneInString.
  destruct (utf8.first (b2z c0)) as [| | sz lo hi] eqn:F;
    try (simpl; lia).
  apply first_accepts_continuation in F as (Hlo & Hhi & Hsz).
  destruct (_ <? sz)%nat; [simpl; lia |].
  destruct l as [| c1 l]; cbn [String.append].
  { destruct (Z.ltb_spec (b2z a) lo); [simpl; lia | lia]. }
  destruct ((b2z c1 <? lo) || (hi <? b2z c1)); [simpl; lia |].
  destruct (sz <=? 2)%nat; [simpl; lia |].
  destruct l as [| c2 l]; cbn [String.append].
  { unfold utf8.locb.
    destruct (Z.ltb_spec (b2z a) 0x80); [simpl; lia | lia]. }
  destruct ((b2z c2 <? utf8.locb) || (utf8.hicb <? b2z c2)); [simpl; lia |].
  destruct (sz <=? 3)%nat; [simpl; lia |].
  destruct l as [| c3 l]; cbn [String.append].
  { unfold utf8.locb.
    destruct (Z.ltb_spec (b2z a) 0x80); [simpl; lia | lia]. }
  destruct ((b2z c3 <? utf8.locb) || (utf8.hicb <? b2z c3)); simpl; lia.
Qed.

(** *** The width of a decoded rune *)

Lemma lor_disjoint (x y n : Z) :
  0 <= n -> x mod 2 ^ n = 0 -> 0 <= y < 2 ^ n -> Z.lor x y = x + y.
Proof.
  intros Hn Hx Hy.
  assert (L : Z.land x y = 0).
  { apply Z.bits_inj'. intros i Hi. rewrite Z.land_spec, Z.bits_0.
    destruct (Z.lt_ge_cases i n) as [Lt | Ge].
    - assert (E : x = x / 2 ^ n * 2 ^ n).
      { pose proof (Z.div_mod x (2 ^ n)). lia. }
      rewrite E, Z.mul_pow2_bits_low by lia. reflexivity.
    - rewrite <- (Z.mod_small y (2 ^ n)) by lia.
      rewrite Z.mod_pow2_bits_high by lia. apply andb_false_r. }
  pose proof (Z.add_lor_land x y). lia.
Qed.

Lemma decoded2 (s0 s1 : Z) :
  Z.lor (Z.shiftl (Z.land s0 utf8.mask2) 6) (Z.land s1 utf8.maskx) =
  s0 mod 32 * 64 + s1 mod 64.
Proof.
  change utf8.mask2 with (Z.ones 5). change utf8.maskx with (Z.ones 6).
  rewrite !Z.land_ones, Z.shiftl_mul_pow2 by lia.
  change (2 ^ 5) with 32. change (2 ^ 6) with 64.
  apply (lor_disjoint _ _ 6); [lia | apply Z.mod_mul; lia |].
  apply Z.mod_pos_bound. lia.
Qed.

Lemma decoded3 (s0 s1 s2 : Z) :
  Z.lor (Z.lor (Z.shiftl (Z.land s0 utf8.mask3) 12)
               (Z.shiftl (Z.land s1 utf8.maskx) 6))
        (Z.land s2 utf8.maskx) =
  s0 mod 16 * 4096 + s1 mod 64 * 64 + s2 mod 64.
Proof.
  change utf8.mask3 with (Z.ones 4). change utf8.maskx with (Z.ones 6).
  rewrite !Z.land_ones, !Z.shiftl_mul_pow2 by lia.
  change (2 ^ 4) with 16. change (2 ^ 6) with 64. change (2 ^ 12) with 4096.
  pose proof (Z.mod_pos_bound s1 64). pose proof (Z.mod_pos_bound s2 64).
  rewrite (lor_disjoint (s0 mod 16 * 4096) _ 12);
    [| lia | apply Z.mod_mul; lia | change (2 ^ 12) with 4096; lia].
  apply (lor_disjoint _ _ 6); [lia | | change (2 ^ 6) with 64; lia].
  replace (s0 mod 16 * 4096 + s1 mod 64 * 64)
    with ((s0 mod 16 * 64 + s1 mod 64) * 2 ^ 6) by (change (2 ^ 6) with 64; lia).
  apply Z.mod_mul. lia.
Qed.

Lemma decoded4 (s0 s1 s2 s3 : Z) :
  Z.lor (Z.lor (Z.lor (Z.shiftl (Z.land s0 utf8.mask4) 18)
                      (Z.shiftl (Z.land s1 utf8.maskx) 12))
               (Z.shiftl (Z.land s2 utf8.maskx) 6))
        (Z.land s3 utf8.maskx) =
  s0 mod 8 * 262144 + s1 mod 64 * 4096 + s2 mod 64 * 64 + s3 mod 64.
Proof.
  change utf8.mask4 with (Z.ones 3). change utf8.maskx with (Z.ones 6).
  rewrite !Z.land_ones, !Z.shiftl_mul_pow2 by lia.
  change (2 ^ 3) with 8. change (2 ^ 6) with 64. change (2 ^ 12) with 4096.
  change (2 ^ 18) with 262144.
  pose proof (Z.mod_pos_bound s1 64). pose proof (Z.mod_pos_bound s2 64).
  pose proof (Z.mod_pos_bound s3 64).
  rewrite (lor_disjoint (s0 mod 8 * 262144) _ 18);
    [| lia | apply Z.mod_mul; lia | change (2 ^ 18) with 262144; lia].
  rewrite (lor_disjoint (s0 mod 8 * 262144 + s1 mod 64 * 4096) _ 12);
    [| lia | | change (2 ^ 12) with 4096; lia].
  2:{ replace (s0 mod 8 * 262144 + s1 mod 64 * 4096)
        with ((s0 mod 8 * 64 + s1 mod 64) * 2 ^ 12)
        by (change (2 ^ 12) with 4096; lia).
      apply Z.mod_mul. lia. }
  apply (lor_disjoint _ _ 6); [lia | | change (2 ^ 6) with 64; lia].
  replace (s0 mod 8 * 262144 + s1 mod 64 * 4096 + s2 mod 64 * 64)
    with ((s0 mod 8 * 4096 + s1 mod 64 * 64 + s2 mod 64) * 2 ^ 6)
    by (change (2 ^ 6) with 64; lia).
  apply Z.mod_mul. lia.
Qed.

(** What [first] says about a leading byte of a longer sequence. *)
Lemma first_Seq (s0 : Z) (sz : nat) (lo hi : Z) :
  utf8.first s0 = utf8.Seq sz lo hi ->
  (sz = 2%nat /\ 0xC2 <= s0 <= 0xDF /\ lo = 0x80 /\ hi = 0xBF) \/
  (sz = 3%nat /\ 0xE0 <= s0 <= 0xEF /\ 0x80 <= lo /\ hi <= 0xBF /\
   (s0 = 0xE0 -> lo = 0xA0) /\ (s0 = 0xED -> hi = 0x9F)) \/
  (sz = 4%nat /\ 0xF0 <= s0 <= 0xF4 /\ 0x80 <= lo /\ hi <= 0xBF /\
   (s0 = 0xF0 -> lo = 0x90) /\ (s0 = 0xF4 -> hi = 0x8F)).
Proof.
  unfold utf8.first, utf8.locb, utf8.hicb.
  repeat match goal with
         | |- context [if ?a <? ?b then _ else _] => destruct (Z.ltb_spec a b)
         | |- context [if ?a =? ?b then _ else _] => destruct (Z.eqb_spec a b)
         end; intros E; try discriminate; injection E as <- <- <-; lia.
Qed.

Ltac decide_comparisons :=
  repeat match goal with
         | |- context [?a <? ?b] => destruct (Z.ltb_spec a b)
         | |- context [?a <=? ?b] => destruct (Z.leb_spec a b)
         end;
  cbn [andb]; lia.

Ltac split_pair E :=
  match type of E with
  | (?a, ?b) = (?x, ?y) =>
    let E1 := fresh in
    let E2 := fresh in
    assert (E1 : a = x) by congruence;
    assert (E2 : b = y) by congruence;
    clear E; subst x; subst y
  end.

(** A rune that was decoded from [s], other than [RuneError], is as long
    in its encoding as the bytes it was decoded from: this is the width the
    first loop of [strings.Map] computes with [utf8.RuneLen]. *)
Lemma decode_RuneLen (s : string) (c : Z) (size : nat) :
  utf8.DecodeRuneInString s = (c, size) ->
  c <> utf8.RuneError ->
  utf8.RuneLen c = Z.of_nat size.
Proof.
  unfold utf8.DecodeRuneInString.
  destruct s as [| c0 r0]; [intros E; injection E as <- <-; congruence |].
  cbv zeta.
  pose proof (b2z_range c0) as R0.
  destruct (utf8.first (b2z c0)) as [| | sz lo hi] eqn:F.
  - intros E _. split_pair E.
    unfold utf8.first in F.
    destruct (Z.ltb_spec (b2z c0) 0x80);
      [| repeat match type of F with
                | context [if ?b then _ else _] => destruct b
                end; discriminate].
    unfold utf8.RuneLen, utf8.rune1Max.
    destruct (Z.ltb_spec (b2z c0) 0); [lia |].
    destruct (Z.leb_spec (b2z c0) 0x7F); [reflexivity | lia].
  - intros E; injection E as <- <-; congruence.
  - apply first_Seq in F.
    destruct (_ <? sz)%nat; [intros E; injection E as <- <-; congruence |].
    destruct r0 as [| c1 r1]; [intros E; injection E as <- <-; congruence |].
    pose proof (b2z_range c1) as R1.
    destruct ((b2z c1 <? lo) || (hi <? b2z c1)) eqn:K1;
      [intros E; injection E as <- <-; congruence |].
    apply orb_false_elim in K1 as [K1 K1']. apply Z.ltb_ge in K1, K1'.
    destruct (Nat.leb_spec sz 2).
    { intros E _. split_pair E. rewrite decoded2.
      unfold utf8.RuneLen, utf8.rune1Max, utf8.rune2Max, utf8.surrogateMin,
        utf8.surrogateMax, utf8.rune3Max, utf8.MaxRune.
      assert (0x80 <= b2z c0 mod 32 * 64 + b2z c1 mod 64 <= 0x7FF)
        by (Z.div_mod_to_equations; lia).
      decide_comparisons. }
    destruct r1 as [| c2 r2]; [intros E; injection E as <- <-; congruence |].
    pose proof (b2z_range c2) as R2. unfold utf8.locb, utf8.hicb.
    destruct ((b2z c2 <? 0x80) || (0xBF <? b2z c2)) eqn:K2;
      [intros E; injection E as <- <-; congruence |].
    apply orb_false_elim in K2 as [K2 K2']. apply Z.ltb_ge in K2, K2'.
    destruct (Nat.leb_spec sz 3).
    { intros E _. split_pair E. rewrite decoded3.
      unfold utf8.RuneLen, utf8.rune1Max, utf8.rune2Max, utf8.surrogateMin,
        utf8.surrogateMax, utf8.rune3Max, utf8.MaxRune.
      assert (0x800 <= b2z c0 mod 16 * 4096 + b2z c1 mod 64 * 64 + b2z c2 mod 64
              <= 0xFFFF /\
              ~ (0xD800 <= b2z c0 mod 16 * 4096 + b2z c1 mod 64 * 64 + b2z c2 mod 64
                 <= 0xDFFF))
        by (Z.div_mod_to_equations; lia).
      decide_comparisons. }
    destruct r2 as [| c3 r3]; [intros E; injection E as <- <-; congruence |].
    pose proof (b2z_range c3) as R3.
    destruct ((b2z c3 <? 0x80) || (0xBF <? b2z c3)) eqn:K3;
      [intros E; injection E as <- <-; congruence |].
    apply orb_false_elim in K3 as [K3 K3']. apply Z.ltb_ge in K3, K3'.
    intros E _. split_pair E. rewrite decoded4.
    unfold utf8.RuneLen, utf8.rune1Max, utf8.rune2Max, utf8.surrogateMin,
      utf8.surrogateMax, utf8.rune3Max, utf8.MaxRune.
    assert (0x10000 <= b2z c0 mod 8 * 262144 + b2z c1 mod 64 * 4096
                       + b2z c2 mod 64 * 64 + b2z c3 mod 64 <= 0x10FFFF)
      by (Z.div_mod_to_equations; lia).
    decide_comparisons.
Qed.

(** One step of the first loop of [strings.Map]: either the rune is kept
    and the loop goes on, or the mapped rune is written and the second loop
    takes over; either way the bytes of the decoded rune are consumed. *)
Lemma Map_first_step (mapping : Z -> Z) (fuel : nat) (s : string)
      (c : Z) (size : nat) :
  s <> ""%string ->
  utf8.DecodeRuneInString s = (c, size) ->
  (mapping c = c /\
   strings.Map_first mapping (S fuel) s =
   (take size s ++ strings.Map_first mapping fuel (drop size s))%string) \/
  strings.Map_first mapping (S fuel) s =
  (strings.write_mapped (mapping c)
     ++ strings.Map_rest mapping fuel (drop size s))%string.
Proof.
  intros Hs D. destruct s as [| c0 t]; [congruence |].
  cbn [strings.Map_first]. rewrite D.
  destruct (Z.eqb_spec (mapping c) c) as [Er | Nr];
    destruct (Z.eqb_spec c utf8.RuneError) as [Ec | Nc]; cbn [andb negb].
  - destruct (size =? 1)%nat; cbn [negb]; [right | left]; auto.
  - left; auto.
  - rewrite andb_false_r. right; reflexivity.
  - right. rewrite (decode_RuneLen _ _ _ D Nc), Nat2Z.id. reflexivity.
Qed.

(** *** Trimming *)

Lemma at_drop (i k : nat) (s : string) : at_ (drop i s) k = at_ s (i + k).
Proof.
  revert s. induction i as [| i IH]; intros s; [reflexivity |].
  destruct s as [| c s]; cbn [drop Nat.add].
  - unfold at_. simpl. reflexivity.
  - rewrite IH. unfold at_. reflexivity.
Qed.

Lemma at_take (n k : nat) (s : string) :
  (k < n)%nat -> at_ (take n s) k = at_ s k.
Proof.
  revert k s. induction n as [| n IH]; intros k s H; [lia |].
  destruct s as [| c s]; [reflexivity |].
  destruct k as [| k]; [reflexivity |].
  cbn [take]. unfold at_ in *. cbn [String.get]. apply IH. lia.
Qed.

Lemma length_take (n : nat) (s : string) :
  String.length (take n s) = Nat.min n (String.length s).
Proof.
  revert s. induction n as [| n IH]; intros s; [reflexivity |].
  destruct s as [| c s]; [reflexivity |]. cbn [take String.length Nat.min].
  rewrite IH. reflexivity.
Qed.

Lemma take_drop (n : nat) (s : string) : (take n s ++ drop n s)%string = s.
Proof.
  revert s. induction n as [| n IH]; intros s; [reflexivity |].
  destruct s as [| c s]; [reflexivity |]. cbn [take drop String.append].
  rewrite IH. reflexivity.
Qed.

Lemma at_out_of_range (s : string) (k : nat) :
  (String.length s <= k)%nat -> at_ s k = 0.
Proof.
  revert k. induction s as [| c s IH]; intros k H; [destruct k; reflexivity |].
  destruct k as [| k]; [simpl in H; lia |].
  unfold at_ in *. cbn [String.get]. apply IH. simpl in H. lia.
Qed.

Lemma asciiSpace_zero : strings.asciiSpace 0 = false.
Proof. reflexivity. Qed.

Lemma asciiSpace_ascii (c : Z) : strings.asciiSpace c = true -> 0 <= c < 0x80.
Proof.
  unfold strings.asciiSpace. intros H.
  repeat (apply orb_prop in H as [H | H]); apply Z.eqb_eq in H; lia.
Qed.

Lemma asciiSpace_IsSpace (c : Z) :
  strings.asciiSpace c = true -> unicode.IsSpace c = true.
Proof.
  intros H. pose proof (asciiSpace_ascii c H) as R.
  unfold unicode.IsSpace, unicode.MaxLatin1.
  rewrite Z.mod_small by lia.
  destruct (Z.leb_spec c 0xFF); [| lia].
  change (strings.asciiSpace c || (c =? 0x85) || (c =? 0xA0) = true).
  rewrite H. reflexivity.
Qed.

Lemma not_space_of_nonascii (c : Z) : 0x80 <= c -> strings.asciiSpace c = false.
Proof.
  intros H. destruct (strings.asciiSpace c) eqn:E; [| reflexivity].
  apply asciiSpace_ascii in E. lia.
Qed.

(** The first scan of [TrimSpace] stops on the first byte that is not an
    ASCII space. *)
Lemma scan_start_spec (rest : string) (start : nat) :
  match strings.scan_start rest start with
  | strings.Stop k =>
    exists n, k = (start + n)%nat /\ (n <= String.length rest)%nat /\
              strings.asciiSpace (at_ rest n) = false
  | strings.NonASCII k =>
    exists n, k = (start + n)%nat /\ (n < String.length rest)%nat /\
              0x80 <= at_ rest n
  end.
Proof.
  revert start. induction rest as [| c t IH]; intros start; cbn [strings.scan_start].
  - exists 0%nat. repeat split; [lia | reflexivity].
  - unfold utf8.RuneSelf.
    destruct (Z.leb_spec 0x80 (b2z c)).
    + exists 0%nat. cbn [String.length]. repeat split; [lia | lia | assumption].
    + destruct (strings.asciiSpace (b2z c)) eqn:A.
      * specialize (IH (S start)).
        destruct (strings.scan_start t (S start)) as [k | k];
          destruct IH as (n & -> & Hn & Hb); exists (S n); cbn [String.length];
            (repeat split; [lia | lia | exact Hb]).
      * exists 0%nat. cbn [String.length]. repeat split; [lia | lia | exact A].
Qed.

(** The second scan stops right after the last byte that is not an ASCII
    space. *)
Lemma scan_stop_spec (s : string) (start stop : nat) :
  match strings.scan_stop s start stop with
  | strings.Stop k =>
    (k <= stop)%nat /\
    ((k <= start)%nat \/
     (start < k)%nat /\ strings.asciiSpace (at_ s (k - 1)) = false)
  | strings.NonASCII k =>
    (start < k <= stop)%nat /\ 0x80 <= at_ s (k - 1)
  end.
Proof.
  induction stop as [| stop IH]; cbn [strings.scan_stop].
  - split; [lia | left; lia].
  - destruct (Nat.ltb_spec start (S stop)).
    + unfold utf8.RuneSelf.
      destruct (Z.leb_spec 0x80 (at_ s stop)).
      * replace (S stop - 1)%nat with stop by lia. split; [lia | assumption].
      * destruct (strings.asciiSpace (at_ s stop)) eqn:A.
        -- destruct (strings.scan_stop s start stop) as [k | k].
           ++ destruct IH as [Hk Hor]. split; [lia | exact Hor].
           ++ destruct IH as [Hk Hb]. split; [lia | exact Hb].
        -- replace (S stop - 1)%nat with stop by lia.
           split; [lia | right; split; [lia | exact A]].
    + split; [lia | left; lia].
Qed.

Lemma decode_size (s : string) :
  s <> ""%string ->
  (1 <= snd (utf8.DecodeRuneInString s) <= String.length s)%nat.
Proof.
  intros Hs. destruct s as [| c0 r0]; [congruence |].
  unfold utf8.DecodeRuneInString.
  destruct (utf8.first (b2z c0)) as [| | sz lo hi] eqn:F;
    try (cbn [snd String.length]; lia).
  apply first_accepts_continuation in F as (_ & _ & Hsz).
  destruct (Nat.ltb_spec (String.length (String c0 r0)) sz);
    [cbn [snd String.length]; lia |].
  repeat match goal with
         | |- context [if ?b then _ else _] => destruct b
         | |- context [match ?r with EmptyString => _ | String _ _ => _ end] =>
           destruct r
         end; cbn [snd String.length] in *; lia.
Qed.

(** The last byte of a decoded sequence that starts with a byte outside
    ASCII is outside ASCII too. *)
Lemma decode_last_byte (s : string) :
  0x80 <= at_ s 0 ->
  0x80 <= at_ s (snd (utf8.DecodeRuneInString s) - 1).
Proof.
  intros H0. destruct s as [| c0 r0]; [exact H0 |].
  change (at_ (String c0 r0) 0) with (b2z c0) in H0.
  unfold utf8.DecodeRuneInString.
  destruct (utf8.first (b2z c0)) as [| | sz lo hi] eqn:F;
    try (cbn [snd Nat.sub]; exact H0).
  apply first_accepts_continuation in F as (Hlo & Hhi & Hsz).
  destruct (_ <? sz)%nat; [exact H0 |].
  destruct r0 as [| c1 r1]; [exact H0 |].
  destruct ((b2z c1 <? lo) || (hi <? b2z c1)) eqn:K1; [exact H0 |].
  apply orb_false_elim in K1 as [K1 _]. apply Z.ltb_ge in K1.
  destruct (sz <=? 2)%nat.
  { cbn [snd Nat.sub]. change (at_ (String c0 (String c1 r1)) 1) with (b2z c1). lia. }
  destruct r1 as [| c2 r2]; [exact H0 |].
  destruct ((b2z c2 <? utf8.locb) || (utf8.hicb <? b2z c2)) eqn:K2; [exact H0 |].
  apply orb_false_elim in K2 as [K2 _]. apply Z.ltb_ge in K2.
  unfold utf8.locb in K2.
  destruct (sz <=? 3)%nat.
  { cbn [snd Nat.sub].
    change (at_ (String c0 (String c1 (String c2 r2))) 2) with (b2z c2). lia. }
  destruct r2 as [| c3 r3]; [exact H0 |].
  destruct ((b2z c3 <? utf8.locb) || (utf8.hicb <? b2z c3)) eqn:K3; [exact H0 |].
  apply orb_false_elim in K3 as [K3 _]. apply Z.ltb_ge in K3.
  unfold utf8.locb in K3. cbn [snd Nat.sub].
  change (at_ (String c0 (String c1 (String c2 (String c3 r3)))) 3) with (b2z c3).
  lia.
Qed.

Lemma decode_ascii_first (s : string) :
  s <> ""%string -> at_ s 0 < 0x80 ->
  utf8.DecodeRuneInString s = (at_ s 0, 1%nat).
Proof.
  intros Hs H. destruct s as [| c t]; [congruence |].
  apply decode_ascii. unfold is_ascii, utf8.RuneSelf. apply Z.ltb_lt. exact H.
Qed.

Lemma indexFunc_from_spec (fuel : nat) (s : string) (i : nat)
      (f : Z -> bool) (truth : bool) :
  strings.indexFunc_from fuel s i f truth = -1 \/
  exists k,
    strings.indexFunc_from fuel s i f truth = Z.of_nat k /\
    drop k s <> ""%string /\
    f (fst (utf8.DecodeRuneInString (drop k s))) = truth.
Proof.
  revert i. induction fuel as [| fuel IH]; intros i; cbn [strings.indexFunc_from].
  - left; reflexivity.
  - destruct (drop i s) as [| c t] eqn:D; [left; reflexivity |].
    destruct (utf8.DecodeRuneInString (String c t)) as [r size] eqn:E.
    destruct (Bool.eqb (f r) truth) eqn:B.
    + right. exists i. rewrite D, E. cbn [fst].
      split; [reflexivity |]. split; [discriminate |].
      apply Bool.eqb_prop. exact B.
    + apply IH.
Qed.

(** What [TrimLeftFunc] with [unicode.IsSpace] returns is a tail of the
    string that does not start with an ASCII space. *)
Lemma TrimLeftFunc_start (s : string) :
  (exists k, strings.TrimLeftFunc s unicode.IsSpace = drop k s) /\
  strings.asciiSpace (at_ (strings.TrimLeftFunc s unicode.IsSpace) 0) = false.
Proof.
  unfold strings.TrimLeftFunc, strings.indexFunc.
  destruct (indexFunc_from_spec (S (String.length s)) s 0 unicode.IsSpace false)
    as [E | (k & E & Hne & Hf)]; rewrite E.
  - cbn [Z.eqb]. split; [| reflexivity].
    exists (String.length s). clear E.
    induction s as [| c s IH]; [reflexivity | exact IH].
  - destruct (Z.eqb_spec (Z.of_nat k) (-1)); [lia |].
    rewrite Nat2Z.id. split; [exists k; reflexivity |].
    destruct (Z.ltb_spec (at_ (drop k s) 0) 0x80) as [L | L].
    + rewrite (decode_ascii_first _ Hne L) in Hf. cbn [fst] in Hf.
      destruct (strings.asciiSpace (at_ (drop k s) 0)) eqn:A; [| reflexivity].
      apply asciiSpace_IsSpace in A. congruence.
    + apply not_space_of_nonascii. exact L.
Qed.

Lemma scan_back_bound (s : string) (start lim fuel k : nat) :
  utf8.scan_back s start lim fuel = Some k -> (k <= start)%nat.
Proof.
  revert start. induction fuel as [| fuel IH]; intros start;
    [destruct start; discriminate |].
  destruct start as [| start']; cbn [utf8.scan_back].
  - destruct (0 <? lim)%nat; [discriminate |].
    destruct (utf8.RuneStart (at_ s 0)); [| discriminate].
    intros E. injection E as <-. lia.
  - destruct (S start' <? lim)%nat; [discriminate |].
    destruct (utf8.RuneStart (at_ s (S start')));
      [intros E; injection E as <-; lia |].
    intros E. apply IH in E. lia.
Qed.

Lemma at_slice (s : string) (i j k : nat) :
  (i + k < j)%nat -> at_ (slice s i j) k = at_ s (i + k).
Proof.
  intros H. unfold slice. rewrite at_take by lia. apply at_drop.
Qed.

Lemma slice_nonempty (s : string) (i j : nat) :
  (i < j <= String.length s)%nat -> slice s i j <> ""%string.
Proof.
  intros H E. apply (f_equal String.length) in E.
  unfold slice in E. rewrite length_take, length_drop in E. simpl in E. lia.
Qed.

(** [DecodeLastRuneInString] on a string of [j] bytes: the width is at
    least 1 and at most [j], and when the rune found starts at an ASCII
    byte, it is that byte. *)
Lemma DecodeLastRune_spec (u : string) (r : Z) (size : nat) :
  u <> ""%string ->
  utf8.DecodeLastRuneInString u = (r, size) ->
  (1 <= size <= String.length u)%nat /\
  (at_ u (String.length u - size) < 0x80 ->
   r = at_ u (String.length u - size)).
Proof.
  intros Hu. unfold utf8.DecodeLastRuneInString.
  destruct (String.length u) as [| start] eqn:L.
  { destruct u; [congruence | discriminate]. }
  unfold utf8.RuneSelf.
  destruct (Z.ltb_spec (at_ u start) 0x80) as [A | A].
  { intros E. split_pair E. replace (S start - 1)%nat with start by lia.
    split; [lia | reflexivity]. }
  match goal with
  | |- context [slice u ?st (S start)] => set (start' := st)
  end.
  assert (Hs : (start' < S start)%nat).
  { subst start'. destruct start as [| st]; [lia |].
    destruct (utf8.scan_back u st (S (S st) - utf8.UTFMax) (S utf8.UTFMax)) eqn:B.
    - apply scan_back_bound in B. lia.
    - unfold utf8.UTFMax. lia. }
  destruct (utf8.DecodeRuneInString (slice u start' (S start))) as [r' size'] eqn:D.
  destruct (Nat.eqb_spec (start' + size') (S start)) as [Eq | Ne].
  - intros E. split_pair E. split; [lia |].
    replace (S start - size')%nat with start' by lia.
    intros Asc.
    assert (Hne : slice u start' (S start) <> ""%string)
      by (apply slice_nonempty; lia).
    assert (F : at_ (slice u start' (S start)) 0 = at_ u start').
    { rewrite at_slice by lia. f_equal. lia. }
    rewrite decode_ascii_first in D by (rewrite ?F; assumption).
    rewrite F in D. congruence.
  - intros E. split_pair E. replace (S start - 1)%nat with start by lia.
    split; [lia | lia].
Qed.

Lemma lastIndexFunc_from_spec (fuel : nat) (s : string) (i : nat)
      (f : Z -> bool) (truth : bool) :
  (i <= String.length s)%nat ->
  strings.lastIndexFunc_from fuel s i f truth = -1 \/
  exists j r size,
    (0 < j <= i)%nat /\
    utf8.DecodeLastRuneInString (slice s 0 j) = (r, size) /\
    (1 <= size <= j)%nat /\
    strings.lastIndexFunc_from fuel s i f truth = Z.of_nat (j - size) /\
    f r = truth.
Proof.
  revert i. induction fuel as [| fuel IH]; intros i Hi;
    cbn [strings.lastIndexFunc_from]; [left; reflexivity |].
  destruct (Nat.ltb_spec 0 i); [| left; reflexivity].
  destruct (utf8.DecodeLastRuneInString (slice s 0 i)) as [r size] eqn:E.
  assert (Hne : slice s 0 i <> ""%string) by (apply slice_nonempty; lia).
  assert (Hlen : String.length (slice s 0 i) = i).
  { unfold slice. rewrite length_take, length_drop. lia. }
  destruct (DecodeLastRune_spec _ _ _ Hne E) as [Hsz _]. rewrite Hlen in Hsz.
  destruct (Bool.eqb (f r) truth) eqn:B.
  - right. exists i, r, size. repeat split; try lia; try assumption.
    apply Bool.eqb_prop. exact B.
  - destruct (IH (i - size)%nat) as [N | (j & r' & size' & Hj & D & Hs' & R & F)];
      [lia | left; exact N |].
    right. exists j, r', size'. repeat split; try lia; assumption.
Qed.

(** [TrimRightFunc] returns a prefix of the string. *)
Lemma TrimRightFunc_prefix (t : string) (f : Z -> bool) :
  exists n, strings.TrimRightFunc t f = take n t.
Proof.
  unfold strings.TrimRightFunc, slice. eexists. rewrite Nat.sub_0_r.
  reflexivity.
Qed.

(** What [TrimRightFunc] with [unicode.IsSpace] returns does not end with an
    ASCII space. *)
Lemma TrimRightFunc_end (t : string) :
  let r := strings.TrimRightFunc t unicode.IsSpace in
  strings.asciiSpace (at_ r (String.length r - 1)) = false.
Proof.
  cbv zeta. unfold strings.TrimRightFunc, strings.lastIndexFunc, slice.
  rewrite Nat.sub_0_r. cbn [drop].
  destruct (lastIndexFunc_from_spec (S (String.length t)) t (String.length t)
                                    unicode.IsSpace false (Nat.le_refl _))
    as [E | (j & r & size & Hj & D & Hs & E & F)]; rewrite E.
  - reflexivity.
  - set (k := (j - size)%nat) in *.
    destruct (Z.leb_spec 0 (Z.of_nat k)); [| lia]. cbn [andb].
    rewrite Nat2Z.id. unfold utf8.RuneSelf.
    assert (Hk : (k < String.length t)%nat) by lia.
    destruct (Z.leb_spec 0x80 (at_ t k)) as [A | A].
    + assert (Hne : drop k t <> ""%string).
      { intros N. apply (f_equal String.length) in N.
        rewrite length_drop in N. simpl in N. lia. }
      pose proof (decode_size _ Hne) as W. rewrite length_drop in W.
      set (wid := snd (utf8.DecodeRuneInString (drop k t))) in *.
      replace (Z.to_nat (Z.of_nat k + Z.of_nat wid)) with (k + wid)%nat by lia.
      rewrite length_take.
      replace (Nat.min (k + wid) (String.length t) - 1)%nat
        with (k + (wid - 1))%nat by lia.
      rewrite at_take by lia. rewrite <- at_drop.
      apply not_space_of_nonascii. apply decode_last_byte.
      rewrite at_drop, Nat.add_0_r. exact A.
    + replace (Z.to_nat (Z.of_nat k + 1)) with (S k) by lia.
      rewrite length_take.
      replace (Nat.min (S k) (String.length t) - 1)%nat with k by lia.
      rewrite at_take by lia.
      assert (Hne : slice t 0 j <> ""%string) by (apply slice_nonempty; lia).
      assert (Hlen : String.length (slice t 0 j) = j).
      { unfold slice. rewrite length_take, length_drop. lia. }
      destruct (DecodeLastRune_spec _ _ _ Hne D) as [_ R]. rewrite Hlen in R.
      fold k in R. rewrite at_slice in R by lia. cbn [Nat.add] in R.
      specialize (R A). subst r.
      destruct (strings.asciiSpace (at_ t k)) eqn:S; [| reflexivity].
      apply asciiSpace_IsSpace in S. congruence.
Qed.

Lemma take_first_byte (n : nat) (t : string) :
  strings.asciiSpace (at_ t 0) = false ->
  strings.asciiSpace (at_ (take n t) 0) = false.
Proof.
  intros H. destruct n as [| n]; [reflexivity |].
  rewrite at_take by lia. exact H.
Qed.

(** [strings.TrimSpace] leaves no ASCII space at either end. *)
Lemma TrimSpace_trimmed (s : string) : trimmed (strings.TrimSpace s).
Proof.
  unfold trimmed, strings.TrimSpace.
  pose proof (scan_start_spec s 0) as S0.
  destruct (strings.scan_start s 0) as [start | start].
  - destruct S0 as (n & -> & Hn & Hb). cbn [Nat.add] in *.
    pose proof (scan_stop_spec s n (String.length s)) as S1.
    destruct (strings.scan_stop s n (String.length s)) as [stop | stop].
    + destruct S1 as [Hk [Hle | [Hlt He]]].
      * unfold slice. replace (stop - n)%nat with 0%nat by lia.
        split; reflexivity.
      * split.
        -- rewrite at_slice by lia. rewrite Nat.add_0_r. exact Hb.
        -- unfold slice at 2. rewrite length_take, length_drop.
           rewrite at_slice by lia.
           replace (n + (Nat.min (stop - n) (String.length s - n) - 1))%nat
             with (stop - 1)%nat by lia.
           exact He.
    + destruct S1 as [Hk He]. split.
      * destruct (TrimRightFunc_prefix (slice s n stop) unicode.IsSpace) as [p ->].
        apply take_first_byte. rewrite at_slice by lia.
        rewrite Nat.add_0_r. exact Hb.
      * apply TrimRightFunc_end.
  - unfold strings.TrimFunc. split.
    + destruct (TrimRightFunc_prefix
                  (strings.TrimLeftFunc (drop start s) unicode.IsSpace)
                  unicode.IsSpace) as [p ->].
      apply take_first_byte. apply TrimLeftFunc_start.
    + apply TrimRightFunc_end.
Qed.

Lemma occurs_take (n : nat) (s : string) : occurs (take n s) s.
Proof.
  exists ""%string, (drop n s). cbn [String.append]. symmetry. apply take_drop.
Qed.

Lemma occurs_drop (n : nat) (s : string) : occurs (drop n s) s.
Proof.
  exists (take n s), ""%string. rewrite append_nil_r. symmetry. apply take_drop.
Qed.

Lemma occurs_trans (a b c : string) : occurs a b -> occurs b c -> occurs a c.
Proof.
  intros (l1 & r1 & E1) (l2 & r2 & E2). subst b c.
  exists (l2 ++ l1)%string, (r1 ++ r2)%string.
  rewrite !append_assoc. reflexivity.
Qed.

(** [strings.TrimSpace] returns a contiguous part of its argument. *)
Lemma TrimSpace_occurs (s : string) : occurs (strings.TrimSpace s) s.
Proof.
  assert (R : forall t, occurs (strings.TrimRightFunc t unicode.IsSpace) t).
  { intros t. destruct (TrimRightFunc_prefix t unicode.IsSpace) as [n ->].
    apply occurs_take. }
  assert (Sl : forall i j, occurs (slice s i j) s).
  { intros i j. unfold slice.
    eapply occurs_trans; [apply occurs_take | apply occurs_drop]. }
  unfold strings.TrimSpace.
  destruct (strings.scan_start s 0) as [start | start].
  - destruct (strings.scan_stop s start (String.length s)) as [stop | stop].
    + apply Sl.
    + eapply occurs_trans; [apply R | apply Sl].
  - unfold strings.TrimFunc.
    eapply occurs_trans; [apply R |].
    destruct (TrimLeftFunc_start (drop start s)) as [[k ->] _].
    eapply occurs_trans; apply occurs_drop.
Qed.

(** *** Trimming a string of ASCII bytes *)

Lemma all_bytes_at (p : Z -> bool) (s : string) (i : nat) :
  all_bytes p s = true -> (i < String.length s)%nat -> p (at_ s i) = true.
Proof.
  revert i. induction s as [| c s IH]; intros i H L; [simpl in L; lia |].
  cbn [all_bytes] in H. apply andb_prop in H as [H1 H2].
  destruct i as [| i]; [exact H1 |].
  change (at_ (String c s) (S i)) with (at_ s i). apply IH; [exact H2 |].
  simpl in L. lia.
Qed.

Lemma all_bytes_of_at (p : Z -> bool) (s : string) :
  (forall i, (i < String.length s)%nat -> p (at_ s i) = true) ->
  all_bytes p s = true.
Proof.
  induction s as [| c s IH]; intros H; [reflexivity |].
  cbn [all_bytes]. apply andb_true_intro. split.
  - apply (H 0%nat). simpl. lia.
  - apply IH. intros i L. apply (H (S i)). simpl. lia.
Qed.

(** On ASCII bytes the first scan skips ASCII spaces only and stops on the
    first byte that is none. *)
Lemma scan_start_ascii (rest : string) (start : nat) :
  all_bytes is_ascii rest = true ->
  exists n,
    strings.scan_start rest start = strings.Stop (start + n) /\
    (n <= String.length rest)%nat /\
    all_bytes strings.asciiSpace (take n rest) = true /\
    strings.asciiSpace (at_ rest n) = false.
Proof.
  revert start. induction rest as [| c t IH]; intros start H;
    cbn [strings.scan_start].
  - exists 0%nat. rewrite Nat.add_0_r. repeat split. reflexivity.
  - cbn [all_bytes] in H. apply andb_prop in H as [Hc Ht].
    unfold is_ascii in Hc. apply Z.ltb_lt in Hc.
    destruct (Z.leb_spec utf8.RuneSelf (b2z c)); [lia |].
    destruct (strings.asciiSpace (b2z c)) eqn:A.
    + destruct (IH (S start) Ht) as (n & E & Hn & Hs & Hb).
      exists (S n). rewrite E. cbn [String.length take all_bytes].
      rewrite A, Hs. repeat split; [f_equal; lia | lia | exact Hb].
    + exists 0%nat. rewrite Nat.add_0_r. cbn [String.length].
      repeat split; [lia | exact A].
Qed.

(** On ASCII bytes the second scan skips ASCII spaces only. *)
Lemma scan_stop_ascii (s : string) (start stop : nat) :
  all_bytes is_ascii s = true ->
  (stop <= String.length s)%nat ->
  exists k,
    strings.scan_stop s start stop = strings.Stop k /\
    (k <= stop)%nat /\
    (forall i, (k <= i < stop)%nat -> strings.asciiSpace (at_ s i) = true) /\
    ((stop <= start)%nat /\ k = stop \/
     (start <= k)%nat /\ (start < stop)%nat /\
     ((start < k)%nat -> strings.asciiSpace (at_ s (k - 1)) = false)).
Proof.
  intros H. induction stop as [| stop IH]; intros L; cbn [strings.scan_stop].
  - exists 0%nat. repeat split; [lia | intros i Hi; lia | left; lia].
  - destruct (Nat.ltb_spec start (S stop)) as [Lt | Ge].
    + assert (A : at_ s stop < utf8.RuneSelf).
      { apply Z.ltb_lt. apply (all_bytes_at is_ascii s stop H). lia. }
      destruct (Z.leb_spec utf8.RuneSelf (at_ s stop)); [lia |].
      destruct (strings.asciiSpace (at_ s stop)) eqn:Sp.
      * destruct IH as (k & E & Hk & Hall & Hor); [lia |].
        exists k. rewrite E. split; [reflexivity |]. split; [lia |]. split.
        -- intros i Hi. destruct (Nat.eq_dec i stop) as [-> | N];
             [exact Sp | apply Hall; lia].
        -- right. destruct Hor as [[Hs ->] | (Hs & Hlt & Hb)].
           ++ assert (start = stop) by lia. subst start.
              split; [lia |]. split; [lia |]. intros F; lia.
           ++ split; [lia |]. split; [lia | exact Hb].
      * exists (S stop). split; [reflexivity |]. split; [lia |]. split.
        -- intros i Hi; lia.
        -- right. split; [lia |]. split; [lia |]. intros _.
           replace (S stop - 1)%nat with stop by lia. exact Sp.
    + exists (S stop). split; [reflexivity |]. split; [lia |]. split.
      * intros i Hi; lia.
      * left. split; [lia | reflexivity].
Qed.

Lemma drop_drop (a b : nat) (s : string) : drop a (drop b s) = drop (b + a) s.
Proof.
  revert s. induction b as [| b IH]; intros s; [reflexivity |].
  destruct s as [| c s]; cbn [drop Nat.add]; [destruct a; reflexivity | apply IH].
Qed.

(** [strings.TrimSpace] on ASCII bytes removes ASCII spaces and nothing
    else. *)
Lemma TrimSpace_ascii (s : string) :
  all_bytes is_ascii s = true ->
  exists l r,
    s = (l ++ strings.TrimSpace s ++ r)%string /\
    all_bytes strings.asciiSpace l = true /\
    all_bytes strings.asciiSpace r = true.
Proof.
  intros H. unfold strings.TrimSpace.
  destruct (scan_start_ascii s 0 H) as (n & E & Hn & Hl & Hb).
  rewrite E. cbn [Nat.add].
  destruct (scan_stop_ascii s n (String.length s) H (Nat.le_refl _))
    as (k & E' & Hk & Hall & Hor).
  rewrite E'.
  exists (take n s), (drop k s).
  assert (Hr : all_bytes strings.asciiSpace (drop k s) = true).
  { apply all_bytes_of_at. intros i Hi. rewrite length_drop in Hi.
    rewrite at_drop. apply Hall. lia. }
  split; [| split; assumption].
  destruct Hor as [[Hs ->] | (Hs & Hlt & _)].
  - assert (n = String.length s) by lia. subst n.
    unfold slice. rewrite Nat.sub_diag. cbn [take String.append].
    rewrite <- (take_drop (String.length s) s) at 1. reflexivity.
  - unfold slice.
    rewrite <- (take_drop n s) at 1. f_equal.
    rewrite <- (take_drop (k - n) (drop n s)) at 1. f_equal.
    rewrite drop_drop. f_equal. lia.
Qed.

(** *** Newlines and the clock text *)

Lemma count_nl_append (a b : string) :
  count_nl (a ++ b) = (count_nl a + count_nl b)%nat.
Proof.
  induction a as [| c a IH]; [reflexivity |].
  cbn [String.append count_nl]. rewrite IH. lia.
Qed.

Lemma two_digits_cases (n : Z) :
  0 <= n < 100 ->
  fmt.pad2 n = two_digits n /\ count_nl (two_digits n) = 0%nat.
Proof.
  intros H. rewrite <- (Z2Nat.id n) by lia.
  assert (K : (Z.to_nat n < 100)%nat) by lia.
  generalize dependent (Z.to_nat n). clear. intros k K.
  do 100 (destruct k as [| k]; [split; reflexivity |]). lia.
Qed.

Lemma pad2_two_digits (n : Z) : 0 <= n < 100 -> fmt.pad2 n = two_digits n.
Proof. intros H. apply two_digits_cases. exact H. Qed.

Lemma count_nl_two_digits (n : Z) :
  0 <= n < 100 -> count_nl (two_digits n) = 0%nat.
Proof. intros H. apply two_digits_cases. exact H. Qed.

(** The model of [Format("15:04:05")] writes hour, minute and second with
    two decimal digits each. *)
Lemma Format_clock_text (t : Z) : time.Format_15_04_05 t = clock_text t.
Proof.
  unfold time.Format_15_04_05, clock_text.
  pose proof (Z.mod_pos_bound (t / 3600) 24).
  pose proof (Z.mod_pos_bound (t / 60) 60).
  pose proof (Z.mod_pos_bound t 60).
  rewrite (pad2_two_digits ((t / 3600) mod 24)) by lia.
  rewrite (pad2_two_digits ((t / 60) mod 60)) by lia.
  rewrite (pad2_two_digits (t mod 60)) by lia.
  reflexivity.
Qed.

Lemma count_nl_clock_text (t : Z) : count_nl (clock_text t) = 0%nat.
Proof.
  unfold clock_text.
  pose proof (Z.mod_pos_bound (t / 3600) 24).
  pose proof (Z.mod_pos_bound (t / 60) 60).
  pose proof (Z.mod_pos_bound t 60).
  rewrite !count_nl_append.
  rewrite (count_nl_two_digits ((t / 3600) mod 24)) by lia.
  rewrite (count_nl_two_digits ((t / 60) mod 60)) by lia.
  rewrite (count_nl_two_digits (t mod 60)) by lia.
  reflexivity.
Qed.

Section Lowering.

Variable To_LowerCase : Z -> Z.

Lemma write_lowered_ascii (c : ascii) :
  is_ascii (b2z c) = true ->
  strings.write_mapped (unicode.ToLower To_LowerCase (b2z c)) =
  String (z2b (strings.lowerASCII (b2z c))) "".
Proof.
  unfold is_ascii, utf8.RuneSelf. intros H. apply Z.ltb_lt in H.
  pose proof (b2z_range c) as R.
  assert (L : 0 <= strings.lowerASCII (b2z c) < 128)
    by (apply lowerASCII_range; lia).
  unfold unicode.ToLower, unicode.MaxASCII.
  destruct (Z.leb_spec (b2z c) 0x7F); [| lia].
  change (if (0x41 <=? b2z c) && (b2z c <=? 0x5A)
          then b2z c + (0x61 - 0x41) else b2z c)
    with (strings.lowerASCII (b2z c)).
  unfold strings.write_mapped.
  destruct (Z.leb_spec 0 (strings.lowerASCII (b2z c))); [| lia].
  unfold utf8.AppendRune, utf8.rune1Max.
  rewrite Z.mod_small by lia.
  destruct (Z.leb_spec (strings.lowerASCII (b2z c)) 0x7F); [reflexivity | lia].
Qed.

Lemma Map_rest_ascii_run (v r : string) (fuel : nat) :
  all_bytes is_ascii v = true ->
  (String.length v <= fuel)%nat ->
  exists x,
    strings.Map_rest (unicode.ToLower To_LowerCase) fuel (v ++ r) =
    (map_bytes strings.lowerASCII v ++ x)%string.
Proof.
  revert fuel. induction v as [| c v IH]; intros fuel Hv Hf.
  - eexists. reflexivity.
  - simpl in Hv. apply andb_prop in Hv as [Hc Hv].
    destruct fuel as [| fuel]; [simpl in Hf; lia |].
    cbn [String.append strings.Map_rest].
    rewrite (decode_ascii c _ Hc). cbn [drop].
    rewrite (write_lowered_ascii c Hc).
    destruct (IH fuel Hv) as [x E]; [simpl in Hf; lia |].
    rewrite E. exists x. reflexivity.
Qed.

Lemma Map_first_ascii_run (v r : string) (fuel : nat) :
  all_bytes is_ascii v = true ->
  (String.length v <= fuel)%nat ->
  exists x,
    strings.Map_first (unicode.ToLower To_LowerCase) fuel (v ++ r) =
    (map_bytes strings.lowerASCII v ++ x)%string.
Proof.
  revert fuel. induction v as [| c v IH]; intros fuel Hv Hf.
  - eexists. reflexivity.
  - simpl in Hv. apply andb_prop in Hv as [Hc Hv].
    destruct fuel as [| fuel]; [simpl in Hf; lia |].
    cbn [String.append map_bytes].
    assert (Hs : String c (v ++ r) <> ""%string) by discriminate.
    destruct (Map_first_step (unicode.ToLower To_LowerCase) fuel _ _ _ Hs
                             (decode_ascii c (v ++ r) Hc)) as [[K E] | E];
      rewrite E; cbn [take drop String.append].
    + destruct (IH fuel Hv) as [x Ex]; [simpl in Hf; lia |].
      rewrite Ex. exists x.
      assert (C : strings.lowerASCII (b2z c) = b2z c).
      { unfold unicode.ToLower, unicode.MaxASCII in K.
        unfold is_ascii, utf8.RuneSelf in Hc. apply Z.ltb_lt in Hc.
        destruct (Z.leb_spec (b2z c) 0x7F); [| lia]. exact K. }
      rewrite C, z2b_b2z. reflexivity.
    + rewrite (write_lowered_ascii c Hc).
      destruct (Map_rest_ascii_run v r fuel Hv) as [x Ex]; [simpl in Hf; lia |].
      rewrite Ex. exists x. reflexivity.
Qed.

Lemma Map_rest_keeps_run (fuel : nat) (l v r : string) :
  v <> ""%string ->
  all_bytes is_ascii v = true ->
  (String.length (l ++ v ++ r) <= fuel)%nat ->
  occurs (map_bytes strings.lowerASCII v)
         (strings.Map_rest (unicode.ToLower To_LowerCase) fuel (l ++ v ++ r)).
Proof.
  intros Hne Hv. revert l.
  induction fuel as [| fuel IH]; intros l Hf.
  - rewrite !length_append in Hf. destruct v; [congruence | simpl in Hf; lia].
  - destruct l as [| c0 l0].
    + destruct (Map_rest_ascii_run v r (S fuel) Hv) as [x E].
      { rewrite !length_append in Hf. simpl in Hf. lia. }
      cbn [String.append]. rewrite E. exists ""%string, x. reflexivity.
    + destruct v as [| a v']; [congruence |].
      pose proof Hv as Ha. simpl in Ha. apply andb_prop in Ha as [Ha _].
      assert (Hl : String c0 l0 <> ""%string) by discriminate.
      pose proof (decode_width (String c0 l0) a (v' ++ r) Hl Ha) as W.
      change (String c0 l0 ++ String a (v' ++ r))%string
        with (String c0 l0 ++ String a v' ++ r)%string in W.
      cbn [strings.Map_rest].
      change (String c0 (l0 ++ String a v' ++ r))%string
        with (String c0 l0 ++ String a v' ++ r)%string.
      destruct (utf8.DecodeRuneInString (String c0 l0 ++ String a v' ++ r))
        as [c width]. simpl snd in W.
      rewrite drop_append by lia.
      destruct (IH (drop width (String c0 l0))) as (l' & r' & E).
      { rewrite length_append, length_drop.
        rewrite length_append in Hf. lia. }
      rewrite E. eexists (_ ++ l')%string, r'.
      rewrite append_assoc. reflexivity.
Qed.

Lemma Map_first_keeps_run (fuel : nat) (l v r : string) :
  v <> ""%string ->
  all_bytes is_ascii v = true ->
  (String.length (l ++ v ++ r) <= fuel)%nat ->
  occurs (map_bytes strings.lowerASCII v)
         (strings.Map_first (unicode.ToLower To_LowerCase) fuel (l ++ v ++ r)).
Proof.
  intros Hne Hv. revert l.
  induction fuel as [| fuel IH]; intros l Hf.
  - rewrite !length_append in Hf. destruct v; [congruence | simpl in Hf; lia].
  - destruct l as [| c0 l0].
    + destruct (Map_first_ascii_run v r (S fuel) Hv) as [x E].
      { rewrite !length_append in Hf. simpl in Hf. lia. }
      cbn [String.append]. rewrite E. exists ""%string, x. reflexivity.
    + destruct v as [| a v']; [congruence |].
      pose proof Hv as Ha. simpl in Ha. apply andb_prop in Ha as [Ha _].
      assert (Hl : String c0 l0 <> ""%string) by discriminate.
      pose proof (decode_width (String c0 l0) a (v' ++ r) Hl Ha) as W.
      change (String c0 l0 ++ String a (v' ++ r))%string
        with (String c0 l0 ++ String a v' ++ r)%string in W.
      assert (Hs : (String c0 l0 ++ String a v' ++ r)%string <> ""%string)
        by discriminate.
      destruct (utf8.DecodeRuneInString (String c0 l0 ++ String a v' ++ r))
        as [c width] eqn:D. simpl snd in W.
      assert (Hd : (String.length (drop width (String c0 l0) ++ String a v' ++ r)
                    <= fuel)%nat).
      { rewrite length_append, length_drop.
        rewrite length_append in Hf. lia. }
      destruct (Map_first_step (unicode.ToLower To_LowerCase) fuel _ _ _ Hs D)
        as [[_ E] | E]; rewrite E; rewrite drop_append by lia.
      * destruct (IH _ Hd) as (l' & r' & E').
        rewrite E'. eexists (_ ++ l')%string, r'.
        rewrite append_assoc. reflexivity.
      * destruct (Map_rest_keeps_run fuel _ _ r Hne Hv Hd) as (l' & r' & E').
        rewrite E'. eexists (_ ++ l')%string, r'.
        rewrite append_assoc. reflexivity.
Qed.

(** Lower-casing a string keeps, in lower case, every run of ASCII bytes
    it contains. *)
Lemma ToLower_keeps_run (l v r : string) :
  v <> ""%string ->
  all_bytes is_ascii v = true ->
  occurs (map_bytes strings.lowerASCII v)
         (strings.ToLower To_LowerCase (l ++ v ++ r)).
Proof.
  intros Hne Hv. unfold strings.ToLower.
  destruct (all_bytes (fun c => c <? utf8.RuneSelf) (l ++ v ++ r)).
  - destruct (all_bytes (fun c => negb (strings.isUpperASCII c)) (l ++ v ++ r))
      eqn:U; cbn [negb].
    + rewrite !all_bytes_append in U.
      apply andb_prop in U as [_ U]. apply andb_prop in U as [U _].
      rewrite (map_lower_fixes v U). exists l, r. reflexivity.
    + rewrite !map_bytes_append. eexists _, _. reflexivity.
  - apply Map_first_keeps_run; auto.
Qed.

End Lowering.

End StringFacts.

(** ** Properties of the polling loop *)

Section Properties.

Local Open Scope list_scope.

Variable To_LowerCase : Z -> Z.
Variable env : Oracle.

(** *** The queries only consult the world *)

Lemma getActiveWindowTitle_frame (m : Machine) :
  out (snd (getActiveWindowTitle env m)) = out m /\
  consecutiveErrors (snd (getActiveWindowTitle env m)) = consecutiveErrors m /\
  writes (snd (getActiveWindowTitle env m)) = writes m /\
  (calls m < calls (snd (getActiveWindowTitle env m)) <= calls m + 2)%nat.
Proof.
  unfold getActiveWindowTitle, exec_Output, ask, bind, ret; simpl.
  destruct (output (env (calls m)) _ _); simpl.
  - destruct (output (env (S (calls m))) _ _); simpl; repeat split; lia.
  - repeat split; lia.
Qed.

Lemma getActiveProcessName_frame (m : Machine) :
  out (snd (getActiveProcessName env m)) = out m /\
  consecutiveErrors (snd (getActiveProcessName env m)) = consecutiveErrors m /\
  writes (snd (getActiveProcessName env m)) = writes m /\
  (calls m < calls (snd (getActiveProcessName env m)) <= calls m + 3)%nat.
Proof.
  unfold getActiveProcessName, exec_Output, ask, bind, ret; simpl.
  destruct (output (env (calls m)) _ _); simpl.
  - destruct (output (env (S (calls m))) _ _); simpl.
    + destruct (output (env (S (S (calls m)))) _ _); simpl; repeat split; lia.
    + repeat split; lia.
  - repeat split; lia.
Qed.

(** A machine is determined by its four fields. *)
Lemma Machine_eta (m : Machine) :
  m = {| calls := calls m; out := out m;
         consecutiveErrors := consecutiveErrors m; writes := writes m |}.
Proof. destruct m; reflexivity. Qed.

Lemma title_query_state (m : Machine) (r : result string) (m1 : Machine) :
  getActiveWindowTitle env m = (r, m1) ->
  m1 = {| calls := calls m1; out := out m;
          consecutiveErrors := consecutiveErrors m; writes := writes m |}.
Proof.
  intros H. pose proof (getActiveWindowTitle_frame m) as F.
  rewrite H in F; simpl in F. destruct F as (Ho & Hc & Hw & _).
  rewrite <- Ho, <- Hc, <- Hw. apply Machine_eta.
Qed.

Lemma process_query_state (m : Machine) (r : result string) (m2 : Machine) :
  getActiveProcessName env m = (r, m2) ->
  m2 = {| calls := calls m2; out := out m;
          consecutiveErrors := consecutiveErrors m; writes := writes m |}.
Proof.
  intros H. pose proof (getActiveProcessName_frame m) as F.
  rewrite H in F; simpl in F. destruct F as (Ho & Hc & Hw & _).
  rewrite <- Ho, <- Hc, <- Hw. apply Machine_eta.
Qed.

(** *** The three ways a tick goes *)

Lemma tick_title_error (interval : Z) (m : Machine) (err : string) (m1 : Machine) :
  getActiveWindowTitle env m = (Err err, m1) ->
  tick To_LowerCase env interval m =
  let c := wrap_int (consecutiveErrors m + 1) in
  if 3 <=? c then
    (TitleErrorBackoff,
     {| calls := calls m1;
        out := out m ++
               [title_error_record c err;
                Log ("Too many consecutive errors. Possible causes:" ++ nl);
                Log ("1. No X11 session active" ++ nl);
                Log ("2. Running in Wayland instead of X11" ++ nl);
                Log ("3. No active window" ++ nl);
                Log ("4. Insufficient permissions" ++ nl);
                Log (nl ++ "Trying again in 10 seconds..." ++ nl);
                Sleep (10 * time.Second)];
        consecutiveErrors := 0;
        writes := writes m ++ [c; 0] |})
  else
    (TitleErrorRetry,
     {| calls := calls m1;
        out := out m ++ [title_error_record c err; Sleep interval];
        consecutiveErrors := c;
        writes := writes m ++ [c] |}).
Proof.
  intros H. pose proof (title_query_state _ _ _ H) as E.
  unfold tick, bind. rewrite H.
  rewrite E; cbn -[wrap_int Z.leb Z.mul fmt.d String.append].
  unfold maxConsecutiveErrors.
  destruct (3 <=? wrap_int (consecutiveErrors m + 1));
    cbn -[wrap_int Z.mul fmt.d String.append];
    unfold title_error_record;
    repeat rewrite <- app_assoc; reflexivity.
Qed.

Lemma tick_process_error (interval : Z) (m : Machine) (title : string)
      (m1 : Machine) (err : string) (m2 : Machine) :
  getActiveWindowTitle env m = (Ok title, m1) ->
  getActiveProcessName env (after_reset m1) = (Err err, m2) ->
  tick To_LowerCase env interval m =
  (ProcessError,
   {| calls := calls m2;
      out := out m ++ [Log ("Error getting process name: " ++ err); Sleep interval];
      consecutiveErrors := 0;
      writes := writes m ++ [0] |}).
Proof.
  intros H1 H2. pose proof (title_query_state _ _ _ H1) as E1.
  pose proof (process_query_state _ _ _ H2) as E2.
  unfold tick, bind. rewrite H1.
  change (set_consecutiveErrors 0 m1) with (tt, after_reset m1).
  cbv iota. rewrite H2. rewrite E2.
  cbn -[String.append]. rewrite E1; cbn -[String.append].
  repeat rewrite <- app_assoc; reflexivity.
Qed.

Lemma application_logging_emits (processName : string) (m : Machine) :
  application_logging To_LowerCase processName m =
  (tt, {| calls := calls m; out := out m ++ tags_printed To_LowerCase processName;
          consecutiveErrors := consecutiveErrors m; writes := writes m |}).
Proof.
  unfold tags_printed, application_logging.
  repeat match goal with
         | |- context [if ?b then _ else _] => destruct b
         end;
    cbn -[String.append]; rewrite ?app_nil_r; try reflexivity.
  rewrite <- Machine_eta. reflexivity.
Qed.

Lemma tick_sampled (interval : Z) (m : Machine) (title : string)
      (m1 : Machine) (name : string) (m2 : Machine) :
  getActiveWindowTitle env m = (Ok title, m1) ->
  getActiveProcessName env (after_reset m1) = (Ok name, m2) ->
  tick To_LowerCase env interval m =
  let a := {| WindowTitle := title; ProcessName := name;
              Timestamp := now (env (calls m2)) |} in
  (Sampled a,
   {| calls := S (calls m2);
      out := out m ++ [Stdout (activity_line a)] ++ tags_printed To_LowerCase name
                   ++ [Sleep interval];
      consecutiveErrors := 0;
      writes := writes m ++ [0] |}).
Proof.
  intros H1 H2. pose proof (title_query_state _ _ _ H1) as E1.
  pose proof (process_query_state _ _ _ H2) as E2.
  unfold tick, bind. rewrite H1.
  change (set_consecutiveErrors 0 m1) with (tt, after_reset m1).
  cbv iota. rewrite H2. rewrite E2.
  cbn -[String.append application_logging activity_line].
  rewrite application_logging_emits.
  cbn -[String.append activity_line]. rewrite E1; cbn -[String.append activity_line].
  repeat rewrite <- app_assoc; reflexivity.
Qed.

Lemma loop_S (fuel : nat) (interval : Z) (m : Machine) :
  loop To_LowerCase env (S fuel) interval m =
  let '(t, m1) := tick To_LowerCase env interval m in
  let '(ts, m') := loop To_LowerCase env fuel interval m1 in
  (t :: ts, m').
Proof.
  cbn [loop]. unfold bind, ret.
  destruct (tick To_LowerCase env interval m) as [t m1].
  destruct (loop To_LowerCase env fuel interval m1) as [ts m']. reflexivity.
Qed.

(** Every tick takes one of the three shapes above. *)
Lemma tick_cases (interval : Z) (m : Machine) :
  (exists err m1,
      getActiveWindowTitle env m = (Err err, m1)) \/
  (exists title m1 err m2,
      getActiveWindowTitle env m = (Ok title, m1) /\
      getActiveProcessName env (after_reset m1) = (Err err, m2)) \/
  (exists title m1 name m2,
      getActiveWindowTitle env m = (Ok title, m1) /\
      getActiveProcessName env (after_reset m1) = (Ok name, m2)).
Proof.
  destruct (getActiveWindowTitle env m) as [[title | err] m1] eqn:H1.
  - destruct (getActiveProcessName env (after_reset m1)) as [[name | err] m2] eqn:H2.
    + right; right. exists title, m1, name, m2. auto.
    + right; left. exists title, m1, err, m2. auto.
  - left. exists err, m1. reflexivity.
Qed.

Lemma wrap_int_small (z : Z) : - 2 ^ 63 <= z < 2 ^ 63 -> wrap_int z = z.
Proof.
  intros H. unfold wrap_int. rewrite Z.mod_small; lia.
Qed.

(** C1: when the window-title query of a tick fails and the incremented
    counter reaches the threshold 3, the tick logs the attempt and the
    six-line hint, sleeps ten seconds and nothing else, leaves the counter at
    0, and the next tick of the loop starts from that state. *)
Theorem backoff_at_threshold
        (interval : Z) (m : Machine) (err : string) (m1 : Machine) :
  getActiveWindowTitle env m = (Err err, m1) ->
  maxConsecutiveErrors <= wrap_int (consecutiveErrors m + 1) ->
  let hint :=
      [Log ("Too many consecutive errors. Possible causes:" ++ nl);
       Log ("1. No X11 session active" ++ nl);
       Log ("2. Running in Wayland instead of X11" ++ nl);
       Log ("3. No active window" ++ nl);
       Log ("4. Insufficient permissions" ++ nl);
       Log (nl ++ "Trying again in 10 seconds..." ++ nl)] in
  let evs :=
      ([title_error_record (wrap_int (consecutiveErrors m + 1)) err]
         ++ hint ++ [Sleep 10000000000])%list in
  let m' :=
      {| calls := calls m1; out := out m ++ evs; consecutiveErrors := 0;
         writes := writes m ++ [wrap_int (consecutiveErrors m + 1); 0] |} in
  tick To_LowerCase env interval m = (TitleErrorBackoff, m') /\
  sleeps_of evs = [10 * time.Second] /\
  consecutiveErrors m' = 0 /\
  forall fuel,
    loop To_LowerCase env (S fuel) interval m =
    (TitleErrorBackoff :: fst (loop To_LowerCase env fuel interval m'),
     snd (loop To_LowerCase env fuel interval m')).
Proof.
  intros H Hc hint evs m'.
  assert (T : tick To_LowerCase env interval m = (TitleErrorBackoff, m')).
  { rewrite (tick_title_error interval m err m1 H). cbv zeta.
    unfold maxConsecutiveErrors in Hc.
    destruct (Z.leb_spec 3 (wrap_int (consecutiveErrors m + 1))); [| lia].
    reflexivity. }
  repeat split; try assumption; try reflexivity.
  intros fuel. rewrite loop_S, T.
  destruct (loop To_LowerCase env fuel interval m'); reflexivity.
Qed.

(** C3 (amended): a tick ends with a Sample exactly when its window-title
    query and then its process-name query both succeed; the Sample holds the
    two results and the current time, and the tick reports it by one write to
    standard output, the first of the tick, of the text
    "[HH:MM:SS] Process: <name> | Window: <title>" and a newline, followed by
    at most one tag line. The text has one newline more than the name and the
    title have together: it is one line exactly when neither contains a
    newline. A tick in which either query fails yields no Sample and writes
    nothing to standard output. *)
Theorem sample_report_iff_both_queries_succeed (interval : Z) (m : Machine) :
  exists evs,
    out (snd (tick To_LowerCase env interval m)) = out m ++ evs /\
    match getActiveWindowTitle env m with
    | (Ok title, m1) =>
      match getActiveProcessName env (after_reset m1) with
      | (Ok name, m2) =>
        let t := now (env (calls m2)) in
        let text := ("[" ++ clock_text t ++ "] Process: " ++ name
                         ++ " | Window: " ++ title ++ nl)%string in
        fst (tick To_LowerCase env interval m) =
          Sampled {| WindowTitle := title; ProcessName := name; Timestamp := t |} /\
        stdout_of evs = text :: stdout_of (tags_printed To_LowerCase name) /\
        (List.length (stdout_of (tags_printed To_LowerCase name)) <= 1)%nat /\
        count_nl text = (1 + count_nl name + count_nl title)%nat
      | (Err _, _) =>
        fst (tick To_LowerCase env interval m) = ProcessError /\
        stdout_of evs = []
      end
    | (Err _, _) =>
      (fst (tick To_LowerCase env interval m) = TitleErrorBackoff \/
       fst (tick To_LowerCase env interval m) = TitleErrorRetry) /\
      stdout_of evs = []
    end.
Proof.
  destruct (getActiveWindowTitle env m) as [[title | err] m1] eqn:H1.
  - destruct (getActiveProcessName env (after_reset m1)) as [[name | err] m2] eqn:H2.
    + rewrite (tick_sampled interval m title m1 name m2 H1 H2). cbv zeta.
      eexists; split; [reflexivity |]. split; [reflexivity |].
      unfold activity_line. cbn [Timestamp ProcessName WindowTitle].
      rewrite Format_clock_text.
      split; [| split].
      * unfold tags_printed, application_logging.
        repeat match goal with
               | |- context [if ?b then _ else _] => destruct b
               end; reflexivity.
      * unfold tags_printed, application_logging.
        repeat match goal with
               | |- context [if ?b then _ else _] => destruct b
               end; cbn; lia.
      * rewrite !count_nl_append, count_nl_clock_text.
        change (count_nl "[") with 0%nat.
        change (count_nl "] Process: ") with 0%nat.
        change (count_nl " | Window: ") with 0%nat.
        change (count_nl nl) with 1%nat. lia.
    + rewrite (tick_process_error interval m title m1 err m2 H1 H2).
      eexists; split; [reflexivity |]. split; reflexivity.
  - rewrite (tick_title_error interval m err m1 H1). cbv zeta.
    destruct (3 <=? wrap_int (consecutiveErrors m + 1));
      (eexists; split; [reflexivity |]); split; auto.
Qed.

(** C4: in a tick whose window-title query succeeds and whose process-name
    query fails, the counter and the record of its assignments are, at the
    end of the tick, what they were when the process-name query returned
    (0, after the reset that followed the title query): the failure assigns
    nothing. The tick logs the failure, sleeps the normal interval once, and
    the next tick of the loop starts. *)
Theorem process_error_leaves_counter
        (interval : Z) (m : Machine) (title : string) (m1 : Machine)
        (err : string) (m2 : Machine) :
  getActiveWindowTitle env m = (Ok title, m1) ->
  getActiveProcessName env (after_reset m1) = (Err err, m2) ->
  let evs := [Log ("Error getting process name: " ++ err); Sleep interval] in
  let m' := {| calls := calls m2; out := out m2 ++ evs;
               consecutiveErrors := consecutiveErrors m2;
               writes := writes m2 |} in
  tick To_LowerCase env interval m = (ProcessError, m') /\
  consecutiveErrors m2 = 0 /\
  writes m2 = writes m ++ [0] /\
  sleeps_of evs = [interval] /\
  forall fuel,
    loop To_LowerCase env (S fuel) interval m =
    (ProcessError :: fst (loop To_LowerCase env fuel interval m'),
     snd (loop To_LowerCase env fuel interval m')).
Proof.
  intros H1 H2 evs m'.
  pose proof (title_query_state _ _ _ H1) as E1.
  pose proof (process_query_state _ _ _ H2) as E2.
  assert (Hm2 : consecutiveErrors m2 = 0 /\ writes m2 = writes m ++ [0]
                /\ out m2 = out m).
  { rewrite E2, E1. simpl. auto. }
  destruct Hm2 as (Hc & Hw & Ho).
  assert (T : tick To_LowerCase env interval m = (ProcessError, m')).
  { rewrite (tick_process_error interval m title m1 err m2 H1 H2).
    unfold m'. rewrite Hc, Hw, Ho. reflexivity. }
  repeat split; try assumption; try reflexivity.
  intros fuel. rewrite loop_S, T.
  destruct (loop To_LowerCase env fuel interval m'); reflexivity.
Qed.

(** C5: whatever the counter was before, a tick whose window-title query
    succeeds assigns 0 to it right after the query and assigns nothing else,
    so the counter is 0 from then to the end of the tick. *)
Theorem title_success_resets_counter
        (interval : Z) (m : Machine) (title : string) (m1 : Machine) :
  getActiveWindowTitle env m = (Ok title, m1) ->
  consecutiveErrors (after_reset m1) = 0 /\
  consecutiveErrors (snd (tick To_LowerCase env interval m)) = 0 /\
  writes (snd (tick To_LowerCase env interval m)) = writes m ++ [0].
Proof.
  intros H1. split; [reflexivity |].
  destruct (getActiveProcessName env (after_reset m1)) as [[name | err] m2] eqn:H2.
  - rewrite (tick_sampled interval m title m1 name m2 H1 H2). simpl. auto.
  - rewrite (tick_process_error interval m title m1 err m2 H1 H2). simpl. auto.
Qed.

(** *** The counter and the threshold *)

Lemma within_threshold_Forall (ws : list Z) :
  within_threshold ws -> Forall (fun v => 0 <= v <= 3) ws.
Proof.
  induction ws as [| v r IH]; simpl; intros H; constructor; tauto.
Qed.

Lemma within_threshold_split (ws l r : list Z) :
  within_threshold ws -> ws = l ++ 3 :: r -> exists r', r = 0 :: r'.
Proof.
  revert ws. induction l as [| x l IH]; intros ws H E; subst ws; simpl in H.
  - destruct H as (_ & H & _). auto.
  - destruct H as (_ & _ & H). eapply IH; eauto.
Qed.

(** The assignments of one tick, from a counter below the threshold. *)
Lemma tick_writes (interval : Z) (m : Machine) :
  0 <= consecutiveErrors m < 3 ->
  exists wt,
    writes (snd (tick To_LowerCase env interval m)) = writes m ++ wt /\
    0 <= consecutiveErrors (snd (tick To_LowerCase env interval m)) < 3 /\
    forall ws, within_threshold ws -> within_threshold (wt ++ ws).
Proof.
  intros Hc.
  destruct (tick_cases interval m)
    as [(err & m1 & H1) | [(title & m1 & err & m2 & H1 & H2)
                          | (title & m1 & name & m2 & H1 & H2)]].
  - rewrite (tick_title_error interval m err m1 H1). cbv zeta.
    rewrite wrap_int_small by lia.
    destruct (Z.leb_spec 3 (consecutiveErrors m + 1)); simpl.
    + exists [consecutiveErrors m + 1; 0].
      split; [reflexivity |]. split; [lia |].
      intros ws Hws. simpl. repeat split; try lia; eauto.
    + exists [consecutiveErrors m + 1].
      split; [reflexivity |]. split; [lia |].
      intros ws Hws. simpl. repeat split; try lia; eauto.
  - rewrite (tick_process_error interval m title m1 err m2 H1 H2). simpl.
    exists [0]. split; [reflexivity |]. split; [lia |].
    intros ws Hws. simpl. repeat split; try lia; eauto.
  - rewrite (tick_sampled interval m title m1 name m2 H1 H2). simpl.
    exists [0]. split; [reflexivity |]. split; [lia |].
    intros ws Hws. simpl. repeat split; try lia; eauto.
Qed.

Lemma loop_writes (fuel : nat) (interval : Z) (m : Machine) :
  0 <= consecutiveErrors m < 3 ->
  exists ws,
    writes (snd (loop To_LowerCase env fuel interval m)) = writes m ++ ws /\
    within_threshold ws /\
    Forall (fun c => 0 <= c < 3) (counters_after_ticks To_LowerCase env fuel interval m).
Proof.
  revert m. induction fuel as [| fuel IH]; intros m Hc.
  - exists []. simpl. rewrite app_nil_r. auto.
  - destruct (tick_writes interval m Hc) as (wt & Hw & Hc' & Hwt).
    rewrite loop_S. cbn [counters_after_ticks].
    destruct (tick To_LowerCase env interval m) as [t m1]; simpl in Hw, Hc' |- *.
    destruct (IH m1 Hc') as (ws & Hws & Hin & Hall).
    destruct (loop To_LowerCase env fuel interval m1) as [ts m']; simpl in Hws |- *.
    exists (wt ++ ws). rewrite Hws, Hw, app_assoc. auto.
Qed.

Lemma monitorActivity_loop (fuel : nat) (interval : Z) (m : Machine) :
  monitorActivity To_LowerCase env fuel interval m =
  loop To_LowerCase env fuel interval (after_reset m).
Proof. reflexivity. Qed.

(** C2: whatever the world answers, in any run of [monitorActivity] every
    value assigned to the counter lies between 0 and 3, an assignment of 3
    is followed at once by the assignment of 0, and at the end of every tick
    the counter is below 3. *)
Theorem counter_never_exceeds_threshold (fuel : nat) (interval : Z) (m : Machine) :
  exists ws,
    writes (snd (monitorActivity To_LowerCase env fuel interval m)) = writes m ++ ws /\
    Forall (fun v => 0 <= v <= maxConsecutiveErrors) ws /\
    (forall l r, ws = l ++ maxConsecutiveErrors :: r -> exists r', r = 0 :: r') /\
    Forall (fun c => 0 <= c < maxConsecutiveErrors)
           (counters_after_ticks To_LowerCase env fuel interval (after_reset m)).
Proof.
  rewrite monitorActivity_loop.
  destruct (loop_writes fuel interval (after_reset m)) as (ws & Hw & Hin & Hall).
  { simpl. lia. }
  exists (0 :: ws). simpl in Hw. rewrite Hw, <- app_assoc.
  assert (W : within_threshold (0 :: ws)).
  { simpl. repeat split; try lia. assumption. }
  split; [reflexivity |]. split; [| split].
  - apply within_threshold_Forall; assumption.
  - intros l r E. eapply within_threshold_split; eauto.
  - assumption.
Qed.

(** C7: in a run of [monitorActivity] whose first two window-title queries
    fail and whose third succeeds, the counter is 1, 2 and 0 at the end of
    the three ticks; the first two ticks end by the ordinary retry, the third
    does not end by the backoff either, and the backoff hint is never
    logged. *)
Theorem two_failures_then_success (interval : Z) (m : Machine) :
  title_outcomes To_LowerCase env 3 interval (after_reset m) = [false; false; true] ->
  counters_after_ticks To_LowerCase env 3 interval (after_reset m) = [1; 2; 0] /\
  exists t3 m' evs,
    monitorActivity To_LowerCase env 3 interval m =
    ([TitleErrorRetry; TitleErrorRetry; t3], m') /\
    t3 <> TitleErrorBackoff /\
    writes m' = writes m ++ [0; 1; 2; 0] /\
    out m' = out m ++ evs /\
    ~ In ("Too many consecutive errors. Possible causes:" ++ nl)%string (logs_of evs).
Proof.
  intros H. cbn [title_outcomes] in H.
  injection H as H1 H2 H3.
  unfold title_ok in H1, H2, H3.
  (* first tick: failure, counter 0 -> 1 *)
  destruct (getActiveWindowTitle env (after_reset m)) as [[? | e1] m1] eqn:Q1;
    [discriminate |].
  pose proof (tick_title_error interval _ e1 m1 Q1) as T1. cbv zeta in T1.
  change (consecutiveErrors (after_reset m)) with 0 in T1.
  change (wrap_int (0 + 1)) with 1 in T1.
  change (3 <=? 1) with false in T1. cbv iota in T1.
  rewrite T1 in H2, H3. cbn [snd] in H2, H3.
  match type of T1 with _ = (_, ?s) => set (s1 := s) in * end.
  (* second tick: failure, counter 1 -> 2 *)
  destruct (getActiveWindowTitle env s1) as [[? | e2] m2] eqn:Q2; [discriminate |].
  pose proof (tick_title_error interval _ e2 m2 Q2) as T2. cbv zeta in T2.
  change (consecutiveErrors s1) with 1 in T2.
  change (wrap_int (1 + 1)) with 2 in T2.
  change (3 <=? 2) with false in T2. cbv iota in T2.
  rewrite T2 in H3. cbn [snd] in H3.
  match type of T2 with _ = (_, ?s) => set (s2 := s) in * end.
  (* third tick: the title query succeeds *)
  destruct (getActiveWindowTitle env s2) as [[title | ?] m3] eqn:Q3; [| discriminate].
  rewrite monitorActivity_loop.
  cbn [counters_after_ticks]. rewrite !T1. cbn [snd]. rewrite !T2. cbn [snd].
  rewrite loop_S, T1, loop_S, T2, loop_S.
  destruct (getActiveProcessName env (after_reset m3)) as [[name | e3] m4] eqn:Q4.
  - rewrite (tick_sampled interval _ title m3 name m4 Q3 Q4). cbv zeta.
    cbn [snd fst consecutiveErrors loop ret].
    split; [reflexivity |].
    do 3 eexists. split; [reflexivity |]. split; [discriminate |].
    cbn [writes out]. subst s2 s1. cbn [writes out after_reset].
    rewrite <- !app_assoc. split; [reflexivity |]. split; [reflexivity |].
    unfold tags_printed, application_logging.
    repeat match goal with
           | |- context [if ?b then _ else _] => destruct b
           end; cbn; intros [E | [E | []]]; discriminate.
  - rewrite (tick_process_error interval _ title m3 e3 m4 Q3 Q4).
    cbn [snd fst consecutiveErrors loop ret].
    split; [reflexivity |].
    do 3 eexists. split; [reflexivity |]. split; [discriminate |].
    cbn [writes out]. subst s2 s1. cbn [writes out after_reset].
    rewrite <- !app_assoc. split; [reflexivity |]. split; [reflexivity |].
    cbn. intros [E | [E | [E | []]]]; discriminate.
Qed.

(** *** Startup *)

(** C8: if [xdotool] is not found on the path, or it is found and its
    display-geometry query fails, [main] logs its start and the fatal
    message and exits with code 1, whatever number of loop iterations is
    observed: the loop is never entered, the counter is never assigned, no
    window is queried and nothing is written to standard output. *)
Theorem preflight_failure_aborts (fuel : nat) (m : Machine) :
  (exists e, look_path (env (calls m)) "xdotool" = Err e) \/
  (exists p e,
      look_path (env (calls m)) "xdotool" = Ok p /\
      output (env (S (calls m))) "xdotool" ["getdisplaygeometry"] = Err e) ->
  exists msg m' evs,
    main To_LowerCase env fuel m = (Exited 1, m') /\
    1 <> 0 /\
    out m' = out m ++ evs /\
    evs = [Log ("Starting activity monitor..." ++ nl);
           Log ("Dependency check failed: " ++ msg)] /\
    (msg = "xdotool is not installed. Please run: sudo apt-get install xdotool"%string \/
     exists e,
       msg = ("cannot connect to X display. Make sure you're running in X11 session: "
                ++ e)%string) /\
    stdout_of evs = [] /\
    writes m' = writes m /\
    consecutiveErrors m' = consecutiveErrors m /\
    (calls m' <= calls m + 2)%nat.
Proof.
  intros [(e & H1) | (p & e & H1 & H2)];
    unfold main, checkDependencies, exec_LookPath, exec_Output, log_Println,
           log_Printf, ask, emit, bind, ret;
    cbn [calls out consecutiveErrors writes]; rewrite H1;
    cbn [calls out consecutiveErrors writes]; try rewrite H2;
    do 3 eexists;
    (split; [reflexivity |]); (split; [discriminate |]);
    cbn [calls out consecutiveErrors writes]; rewrite <- app_assoc;
    (split; [reflexivity |]); (split; [reflexivity |]);
    (split; [eauto |]);
    repeat split; lia.
Qed.

Lemma main_preflight_ok (fuel : nat) (m : Machine) (p g : string) :
  look_path (env (calls m)) "xdotool" = Ok p ->
  output (env (S (calls m))) "xdotool" ["getdisplaygeometry"] = Ok g ->
  main To_LowerCase env fuel m =
  let m0 :=
      {| calls := S (S (calls m));
         out := out m ++
                [Log ("Starting activity monitor..." ++ nl);
                 Stdout ("All dependencies checked. Starting monitoring..." ++ nl);
                 Stdout ("Press Ctrl+C to stop" ++ nl)];
         consecutiveErrors := consecutiveErrors m;
         writes := writes m |} in
  (Running (fst (monitorActivity To_LowerCase env fuel (5 * time.Second) m0)),
   snd (monitorActivity To_LowerCase env fuel (5 * time.Second) m0)).
Proof.
  intros H1 H2.
  unfold main, checkDependencies, exec_LookPath, exec_Output, log_Println,
         fmt_Println, ask, emit, bind, ret.
  cbn [calls out consecutiveErrors writes]. rewrite H1.
  cbn [calls out consecutiveErrors writes]. rewrite H2.
  cbn [calls out consecutiveErrors writes]. rewrite <- !app_assoc. cbn [app].
  cbv zeta.
  destruct (monitorActivity To_LowerCase env fuel (5 * time.Second) _).
  reflexivity.
Qed.

(** *** The loop goes on *)

(** Every tick sleeps exactly once. *)
Lemma tick_sleeps_once (interval : Z) (m : Machine) :
  exists evs,
    out (snd (tick To_LowerCase env interval m)) = out m ++ evs /\
    List.length (sleeps_of evs) = 1%nat.
Proof.
  destruct (tick_cases interval m)
    as [(err & m1 & H1) | [(title & m1 & err & m2 & H1 & H2)
                          | (title & m1 & name & m2 & H1 & H2)]].
  - rewrite (tick_title_error interval m err m1 H1). cbv zeta.
    destruct (3 <=? wrap_int (consecutiveErrors m + 1));
      eexists; split; reflexivity.
  - rewrite (tick_process_error interval m title m1 err m2 H1 H2).
    eexists; split; reflexivity.
  - rewrite (tick_sampled interval m title m1 name m2 H1 H2). cbv zeta.
    eexists; split; [reflexivity |].
    unfold tags_printed, application_logging.
    repeat match goal with
           | |- context [if ?b then _ else _] => destruct b
           end; reflexivity.
Qed.

Lemma sleeps_of_app (e1 e2 : list Event) :
  sleeps_of (e1 ++ e2) = sleeps_of e1 ++ sleeps_of e2.
Proof.
  induction e1 as [| [msg | text | d] e1 IH]; simpl; rewrite ?IH; reflexivity.
Qed.

Lemma loop_runs (fuel : nat) (interval : Z) (m : Machine) :
  List.length (fst (loop To_LowerCase env fuel interval m)) = fuel /\
  exists evs,
    out (snd (loop To_LowerCase env fuel interval m)) = out m ++ evs /\
    List.length (sleeps_of evs) = fuel.
Proof.
  revert m. induction fuel as [| fuel IH]; intros m.
  - split; [reflexivity |]. exists []. simpl. rewrite app_nil_r. auto.
  - rewrite loop_S.
    destruct (tick_sleeps_once interval m) as (e1 & Ho1 & Hs1).
    destruct (tick To_LowerCase env interval m) as [t m1]; simpl in Ho1.
    destruct (IH m1) as (Hl & e2 & Ho2 & Hs2).
    destruct (loop To_LowerCase env fuel interval m1) as [ts m']; simpl in *.
    split; [congruence |].
    exists (e1 ++ e2). rewrite Ho2, Ho1, app_assoc. split; [reflexivity |].
    rewrite sleeps_of_app, length_app. lia.
Qed.

Lemma loop_prefix (fuel k : nat) (interval : Z) (m : Machine) :
  firstn fuel (fst (loop To_LowerCase env (fuel + k) interval m)) =
  fst (loop To_LowerCase env fuel interval m).
Proof.
  revert m. induction fuel as [| fuel IH]; intros m.
  - reflexivity.
  - change (S fuel + k)%nat with (S (fuel + k)). rewrite !loop_S.
    destruct (tick To_LowerCase env interval m) as [t m1].
    specialize (IH m1).
    destruct (loop To_LowerCase env (fuel + k) interval m1) as [ts1 m1'].
    destruct (loop To_LowerCase env fuel interval m1) as [ts2 m2'].
    simpl in *. congruence.
Qed.

Lemma main_preflight_exit (fuel : nat) (m : Machine) :
  (exists e, look_path (env (calls m)) "xdotool" = Err e) \/
  (exists p e,
      look_path (env (calls m)) "xdotool" = Ok p /\
      output (env (S (calls m))) "xdotool" ["getdisplaygeometry"] = Err e) ->
  exists m',
    main To_LowerCase env fuel m = (Exited 1, m') /\
    writes m' = writes m.
Proof.
  intros [(e & H1) | (p & e & H1 & H2)];
    unfold main, checkDependencies, exec_LookPath, exec_Output, log_Println,
           log_Printf, ask, emit, bind, ret;
    cbn [calls out consecutiveErrors writes]; rewrite H1;
    cbn [calls out consecutiveErrors writes]; try rewrite H2;
    eexists; split; reflexivity.
Qed.

(** The [for] statement over the body of [monitorActivity] is the loop
    observed so far: no way through the body leaves it. *)
Lemma for_ever_tick (fuel : nat) (interval : Z) (m : Machine) :
  for_ever fuel (tick_with_flow To_LowerCase env interval) m =
  ((fst (loop To_LowerCase env fuel interval m), Looping),
   snd (loop To_LowerCase env fuel interval m)).
Proof.
  revert m. induction fuel as [| fuel IH]; intros m; [reflexivity |].
  rewrite loop_S. cbn [for_ever]. unfold bind at 1. unfold tick_with_flow at 1.
  unfold bind at 1, ret at 1.
  destruct (tick To_LowerCase env interval m) as [t m1].
  cbn [fst snd]. specialize (IH m1).
  destruct (loop To_LowerCase env fuel interval m1) as [ts m'].
  cbn [fst snd] in IH.
  destruct t; cbn [tick_flow]; unfold bind, ret; rewrite IH; reflexivity.
Qed.

Lemma main_flow_main (fuel : nat) (m : Machine) :
  main_flow To_LowerCase env fuel m = main To_LowerCase env fuel m.
Proof.
  unfold main_flow, main, bind.
  destruct (log_Println "Starting activity monitor..." m) as [u m0].
  destruct (checkDependencies env m0) as [[err | ] m1]; [reflexivity |].
  destruct (fmt_Println "All dependencies checked. Starting monitoring..." m1)
    as [u1 m2].
  destruct (fmt_Println "Press Ctrl+C to stop" m2) as [u2 m3].
  unfold monitorActivity_flow, monitorActivity, bind.
  destruct (set_consecutiveErrors 0 m3) as [u3 m4].
  rewrite for_ever_tick. cbn [fst snd]. unfold ret.
  destruct (loop To_LowerCase env fuel (5 * time.Second) m4); reflexivity.
Qed.


(** C10: in a tick whose five commands succeed, the identifier [id1] that
    the first [getactivewindow] returned is used for the title only; the
    process is looked up for [id2], the answer of a second [getactivewindow]
    issued two calls later. The Sample pairs the title of window [id1] with
    the process name of window [id2], whether or not the two are the same
    window. *)
Theorem process_name_uses_second_window_query
        (interval : Z) (m : Machine) (id1 title id2 pid comm : string) :
  let k := calls m in
  output (env k) "xdotool" ["getactivewindow"] = Ok id1 ->
  output (env (1 + k)%nat) "xdotool" ["getwindowname"; strings.TrimSpace id1] = Ok title ->
  output (env (2 + k)%nat) "xdotool" ["getactivewindow"] = Ok id2 ->
  output (env (3 + k)%nat) "xdotool" ["getwindowpid"; strings.TrimSpace id2] = Ok pid ->
  output (env (4 + k)%nat) "ps" ["-p"; strings.TrimSpace pid; "-o"; "comm="] = Ok comm ->
  fst (tick To_LowerCase env interval m) =
  Sampled {| WindowTitle := strings.TrimSpace title;
             ProcessName := strings.TrimSpace comm;
             Timestamp := now (env (5 + k)%nat) |} /\
  calls (snd (tick To_LowerCase env interval m)) = (6 + k)%nat.
Proof.
  intros k H1 H2 H3 H4 H5. subst k. cbn [Nat.add] in *.
  assert (Q1 : getActiveWindowTitle env m =
               (Ok (strings.TrimSpace title),
                {| calls := S (S (calls m)); out := out m;
                   consecutiveErrors := consecutiveErrors m;
                   writes := writes m |})).
  { unfold getActiveWindowTitle, exec_Output, ask, bind, ret.
    cbn [calls]. rewrite H1. cbn [calls]. rewrite H2. reflexivity. }
  assert (Q2 : getActiveProcessName env
                 (after_reset {| calls := S (S (calls m)); out := out m;
                                 consecutiveErrors := consecutiveErrors m;
                                 writes := writes m |}) =
               (Ok (strings.TrimSpace comm),
                {| calls := S (S (S (S (S (calls m))))); out := out m;
                   consecutiveErrors := 0;
                   writes := writes m ++ [0] |})).
  { unfold getActiveProcessName, exec_Output, ask, bind, ret, after_reset.
    cbn [calls]. rewrite H3. cbn [calls]. rewrite H4. cbn [calls].
    rewrite H5. reflexivity. }
  rewrite (tick_sampled interval m _ _ _ _ Q1 Q2). split; reflexivity.
Qed.

(** *** Classification *)

Lemma tags_follow_first_match (name : string) :
  exists c,
    spec_first_match (strings.ToLower To_LowerCase name) spec_categories c /\
    tags_printed To_LowerCase name = spec_tag_events c.
Proof.
  unfold tags_printed, application_logging, spec_categories.
  destruct (strings.Contains (strings.ToLower To_LowerCase name) "chrome") eqn:C1.
  { apply Contains_occurs in C1. exists (Some Browser).
    split; [constructor; assumption | reflexivity]. }
  assert (N1 : ~ occurs "chrome" (strings.ToLower To_LowerCase name)).
  { intros O. apply Contains_occurs in O. congruence. }
  destruct (strings.Contains (strings.ToLower To_LowerCase name) "code") eqn:C2.
  { apply Contains_occurs in C2. exists (Some CodeEditor).
    split; [| reflexivity].
    apply entry_miss; [assumption |]. constructor; assumption. }
  assert (N2 : ~ occurs "code" (strings.ToLower To_LowerCase name)).
  { intros O. apply Contains_occurs in O. congruence. }
  destruct (strings.Contains (strings.ToLower To_LowerCase name) "nvim") eqn:C3.
  { apply Contains_occurs in C3. exists (Some TerminalEditor).
    split; [| reflexivity].
    do 2 (apply entry_miss; [assumption |]). constructor; assumption. }
  assert (N3 : ~ occurs "nvim" (strings.ToLower To_LowerCase name)).
  { intros O. apply Contains_occurs in O. congruence. }
  exists None. split; [| reflexivity].
  do 3 (apply entry_miss; [assumption |]). constructor.
Qed.

Lemma any_case_occurs_lowered (w name : string) :
  w <> ""%string ->
  all_bytes is_ascii w = true ->
  contains_any_case w name ->
  occurs w (strings.ToLower To_LowerCase name).
Proof.
  intros Hne Hw (l & v & r & -> & E). subst w.
  apply ToLower_keeps_run.
  - intros ->. apply Hne. reflexivity.
  - apply ascii_of_lowered. assumption.
Qed.


(** *** Further properties of the loop *)

(** X1: every tick ends with its one sleep, of the normal interval or of
    ten seconds; nothing follows the sleep inside the tick. *)
Theorem tick_ends_with_its_sleep (interval : Z) (m : Machine) :
  exists evs d,
    out (snd (tick To_LowerCase env interval m)) = out m ++ evs ++ [Sleep d] /\
    sleeps_of evs = [] /\
    (d = interval \/ d = 10 * time.Second).
Proof.
  destruct (tick_cases interval m)
    as [(err & m1 & H1) | [(title & m1 & err & m2 & H1 & H2)
                          | (title & m1 & name & m2 & H1 & H2)]].
  - rewrite (tick_title_error interval m err m1 H1). cbv zeta.
    destruct (3 <=? wrap_int (consecutiveErrors m + 1)).
    + eexists (_ :: _ :: _ :: _ :: _ :: _ :: [_]), _.
      split; [reflexivity |]. split; [reflexivity | right; reflexivity].
    + eexists [_], _. split; [reflexivity |]. split; [reflexivity | left; reflexivity].
  - rewrite (tick_process_error interval m title m1 err m2 H1 H2).
    eexists [_], _. split; [reflexivity |]. split; [reflexivity | left; reflexivity].
  - rewrite (tick_sampled interval m title m1 name m2 H1 H2). cbv zeta.
    exists ([Stdout (activity_line
                       {| WindowTitle := title; ProcessName := name;
                          Timestamp := now (env (calls m2)) |})]
              ++ tags_printed To_LowerCase name), interval.
    cbn [snd out]. rewrite <- !app_assoc. split; [reflexivity |].
    split; [| left; reflexivity].
    unfold tags_printed, application_logging.
    repeat match goal with
           | |- context [if ?b then _ else _] => destruct b
           end; reflexivity.
Qed.

(** X2: a tick whose window-title query fails runs no command beyond the
    one or two of that query and does not call [time.Now]: the process name
    is not looked up and no time is taken for a Sample. ([calls] counts the
    commands and the program's own calls of [time.Now], not the time stamps
    the standard logger puts on its records.) *)
Theorem failed_title_query_ends_the_asking
        (interval : Z) (m : Machine) (err : string) (m1 : Machine) :
  getActiveWindowTitle env m = (Err err, m1) ->
  calls (snd (tick To_LowerCase env interval m)) = calls m1 /\
  (calls m < calls m1 <= calls m + 2)%nat.
Proof.
  intros H. pose proof (getActiveWindowTitle_frame m) as F.
  rewrite H in F. cbn [snd] in F.
  rewrite (tick_title_error interval m err m1 H). cbv zeta.
  destruct (3 <=? wrap_int (consecutiveErrors m + 1)); cbn [snd calls];
    split; tauto.
Qed.

Lemma tick_counter (interval : Z) (m : Machine) :
  0 <= consecutiveErrors m < 3 ->
  consecutiveErrors (snd (tick To_LowerCase env interval m)) =
  (if title_ok env m then 0
   else if 3 <=? consecutiveErrors m + 1 then 0 else consecutiveErrors m + 1) /\
  0 <= consecutiveErrors (snd (tick To_LowerCase env interval m)) < 3.
Proof.
  intros Hc. unfold title_ok.
  destruct (tick_cases interval m)
    as [(err & m1 & H1) | [(title & m1 & err & m2 & H1 & H2)
                          | (title & m1 & name & m2 & H1 & H2)]];
    rewrite H1; cbn [fst].
  - rewrite (tick_title_error interval m err m1 H1). cbv zeta.
    rewrite wrap_int_small by lia.
    destruct (Z.leb_spec 3 (consecutiveErrors m + 1)); cbn [snd consecutiveErrors];
      split; lia.
  - rewrite (tick_process_error interval m title m1 err m2 H1 H2).
    cbn [snd consecutiveErrors]. split; lia.
  - rewrite (tick_sampled interval m title m1 name m2 H1 H2).
    cbn [snd consecutiveErrors]. split; lia.
Qed.

Lemma counters_follow_model (fuel : nat) (interval : Z) (m : Machine) :
  0 <= consecutiveErrors m < 3 ->
  counters_after_ticks To_LowerCase env fuel interval m =
  counter_model (consecutiveErrors m) (title_outcomes To_LowerCase env fuel interval m).
Proof.
  revert m. induction fuel as [| fuel IH]; intros m Hc; [reflexivity |].
  cbn [counters_after_ticks title_outcomes counter_model].
  destruct (tick_counter interval m Hc) as [E B].
  rewrite <- E. f_equal. apply IH. exact B.
Qed.

(** X3: in a run of [monitorActivity] the counter is a function of the
    window-title outcomes alone; whether the process-name queries succeed
    makes no difference to it. *)
Theorem counter_follows_title_outcomes (fuel : nat) (interval : Z) (m : Machine) :
  counters_after_ticks To_LowerCase env fuel interval (after_reset m) =
  counter_model 0 (title_outcomes To_LowerCase env fuel interval (after_reset m)).
Proof.
  apply (counters_follow_model fuel interval (after_reset m)). simpl. lia.
Qed.

Lemma loop_app (a b : nat) (interval : Z) (m : Machine) :
  loop To_LowerCase env (a + b) interval m =
  (fst (loop To_LowerCase env a interval m)
     ++ fst (loop To_LowerCase env b interval
                  (snd (loop To_LowerCase env a interval m))),
   snd (loop To_LowerCase env b interval
             (snd (loop To_LowerCase env a interval m)))).
Proof.
  revert m. induction a as [| a IH]; intros m.
  - cbn [Nat.add loop ret fst snd app].
    destruct (loop To_LowerCase env b interval m); reflexivity.
  - change (S a + b)%nat with (S (a + b)). rewrite !loop_S.
    destruct (tick To_LowerCase env interval m) as [t m1].
    rewrite (IH m1).
    destruct (loop To_LowerCase env a interval m1) as [ts m2]. reflexivity.
Qed.

(** Three failed ticks from a counter of 0. *)
Lemma three_failures (interval : Z) (m : Machine) :
  (forall s, title_ok env s = false) ->
  consecutiveErrors m = 0 ->
  fst (loop To_LowerCase env 3 interval m) =
    [TitleErrorRetry; TitleErrorRetry; TitleErrorBackoff] /\
  consecutiveErrors (snd (loop To_LowerCase env 3 interval m)) = 0.
Proof.
  intros Hdown Hc.
  assert (F : forall s, exists e s1, getActiveWindowTitle env s = (Err e, s1)).
  { intros s. specialize (Hdown s). unfold title_ok in Hdown.
    destruct (getActiveWindowTitle env s) as [[t | e] s1]; [discriminate |].
    eauto. }
  destruct (F m) as (e1 & m1 & Q1).
  pose proof (tick_title_error interval m e1 m1 Q1) as T1. cbv zeta in T1.
  rewrite Hc in T1. change (wrap_int (0 + 1)) with 1 in T1.
  change (3 <=? 1) with false in T1. cbv iota in T1.
  match type of T1 with _ = (_, ?s) => set (s1 := s) in * end.
  destruct (F s1) as (e2 & m2 & Q2).
  pose proof (tick_title_error interval s1 e2 m2 Q2) as T2. cbv zeta in T2.
  change (consecutiveErrors s1) with 1 in T2.
  change (wrap_int (1 + 1)) with 2 in T2.
  change (3 <=? 2) with false in T2. cbv iota in T2.
  match type of T2 with _ = (_, ?s) => set (s2 := s) in * end.
  destruct (F s2) as (e3 & m3 & Q3).
  pose proof (tick_title_error interval s2 e3 m3 Q3) as T3. cbv zeta in T3.
  change (consecutiveErrors s2) with 2 in T3.
  change (wrap_int (2 + 1)) with 3 in T3.
  change (3 <=? 3) with true in T3. cbv iota in T3.
  rewrite loop_S, T1, loop_S, T2, loop_S, T3. split; reflexivity.
Qed.


(** *** The queries and the preflight, seen from the world *)

Lemma title_query_ok (m : Machine) (t : string) (m1 : Machine) :
  getActiveWindowTitle env m = (Ok t, m1) ->
  calls m1 = (calls m + 2)%nat /\
  exists id raw,
    output (env (calls m)) "xdotool" ["getactivewindow"] = Ok id /\
    output (env (S (calls m))) "xdotool" ["getwindowname"; strings.TrimSpace id]
      = Ok raw /\
    t = strings.TrimSpace raw.
Proof.
  unfold getActiveWindowTitle, exec_Output, ask, bind, ret.
  cbn [calls]. destruct (output (env (calls m)) _ _) as [id | e] eqn:Q1;
    [| discriminate].
  cbn [calls]. destruct (output (env (S (calls m))) _ _) as [raw | e] eqn:Q2;
    [| discriminate].
  intros E. injection E as <- <-. cbn [calls]. split; [lia |].
  exists id, raw. auto.
Qed.

Lemma process_query_ok (m : Machine) (n : string) (m2 : Machine) :
  getActiveProcessName env m = (Ok n, m2) ->
  calls m2 = (calls m + 3)%nat /\
  exists id pid raw,
    output (env (calls m)) "xdotool" ["getactivewindow"] = Ok id /\
    output (env (S (calls m))) "xdotool" ["getwindowpid"; strings.TrimSpace id]
      = Ok pid /\
    output (env (S (S (calls m)))) "ps" ["-p"; strings.TrimSpace pid; "-o"; "comm="]
      = Ok raw /\
    n = strings.TrimSpace raw.
Proof.
  unfold getActiveProcessName, exec_Output, ask, bind, ret.
  cbn [calls]. destruct (output (env (calls m)) _ _) as [id | e] eqn:Q1;
    [| discriminate].
  cbn [calls]. destruct (output (env (S (calls m))) _ _) as [pid | e] eqn:Q2;
    [| discriminate].
  cbn [calls]. destruct (output (env (S (S (calls m)))) _ _) as [raw | e] eqn:Q3;
    [| discriminate].
  intros E. injection E as <- <-. cbn [calls]. split; [lia |].
  exists id, pid, raw. auto.
Qed.

(** X5: [checkDependencies] returns the nil error exactly when [xdotool] is
    found on the path and its display-geometry query succeeds; the geometry
    is queried only when the tool was found; nothing is printed or logged
    and the counter is left alone. *)
Theorem checkDependencies_nil_iff_both_pass (m : Machine) :
  (fst (checkDependencies env m) = None <->
   exists p g,
     look_path (env (calls m)) "xdotool" = Ok p /\
     output (env (S (calls m))) "xdotool" ["getdisplaygeometry"] = Ok g) /\
  calls (snd (checkDependencies env m)) =
    match look_path (env (calls m)) "xdotool" with
    | Ok _ => (calls m + 2)%nat
    | Err _ => (calls m + 1)%nat
    end /\
  out (snd (checkDependencies env m)) = out m /\
  consecutiveErrors (snd (checkDependencies env m)) = consecutiveErrors m /\
  writes (snd (checkDependencies env m)) = writes m.
Proof.
  unfold checkDependencies, exec_LookPath, exec_Output, ask, bind, ret.
  cbn [calls]. destruct (look_path (env (calls m)) "xdotool") as [p | e].
  - cbn [calls].
    destruct (output (env (S (calls m))) "xdotool" ["getdisplaygeometry"])
      as [g | e]; cbn [fst snd calls out consecutiveErrors writes].
    + split; [| repeat split; lia].
      split; [intros _; exists p, g; auto | reflexivity].
    + split; [| repeat split; lia].
      split; [discriminate | intros (? & ? & _ & ?); discriminate].
  - cbn [fst snd calls out consecutiveErrors writes].
    split; [| repeat split; lia].
    split; [discriminate | intros (? & ? & ? & _); discriminate].
Qed.

(** X6: a window title or a process name that a query returns has no ASCII
    space (blank, tab, newline, vertical tab, form feed, carriage return) at
    either end and is a contiguous part of the output of the last command of
    the query; when that output is made of ASCII bytes, what was removed
    around it is ASCII spaces only. The two fields of every Sample have no
    ASCII space at either end. *)
Theorem query_results_are_trimmed (interval : Z) (m : Machine) :
  (forall t m1,
      getActiveWindowTitle env m = (Ok t, m1) ->
      trimmed t /\
      exists id raw,
        output (env (S (calls m))) "xdotool" ["getwindowname"; id] = Ok raw /\
        occurs t raw /\
        (all_bytes is_ascii raw = true ->
         exists l r,
           raw = (l ++ t ++ r)%string /\
           all_bytes strings.asciiSpace l = true /\
           all_bytes strings.asciiSpace r = true)) /\
  (forall n m2,
      getActiveProcessName env m = (Ok n, m2) ->
      trimmed n /\
      exists pid raw,
        output (env (S (S (calls m)))) "ps" ["-p"; pid; "-o"; "comm="] = Ok raw /\
        occurs n raw /\
        (all_bytes is_ascii raw = true ->
         exists l r,
           raw = (l ++ n ++ r)%string /\
           all_bytes strings.asciiSpace l = true /\
           all_bytes strings.asciiSpace r = true)) /\
  (forall a,
      fst (tick To_LowerCase env interval m) = Sampled a ->
      trimmed (WindowTitle a) /\ trimmed (ProcessName a)).
Proof.
  split; [| split].
  - intros t m1 H. apply title_query_ok in H as (_ & id & raw & _ & Q & ->).
    split; [apply TrimSpace_trimmed |].
    exists (strings.TrimSpace id), raw. split; [exact Q |].
    split; [apply TrimSpace_occurs | apply TrimSpace_ascii].
  - intros n m2 H. apply process_query_ok in H as (_ & id & pid & raw & _ & _ & Q & ->).
    split; [apply TrimSpace_trimmed |].
    exists (strings.TrimSpace pid), raw. split; [exact Q |].
    split; [apply TrimSpace_occurs | apply TrimSpace_ascii].
  - intros a T.
    destruct (tick_cases interval m)
      as [(err & m1 & H1) | [(title & m1 & err & m2 & H1 & H2)
                            | (title & m1 & name & m2 & H1 & H2)]].
    + rewrite (tick_title_error interval m err m1 H1) in T. cbv zeta in T.
      destruct (3 <=? wrap_int (consecutiveErrors m + 1)); discriminate.
    + rewrite (tick_process_error interval m title m1 err m2 H1 H2) in T.
      discriminate.
    + rewrite (tick_sampled interval m title m1 name m2 H1 H2) in T.
      cbv zeta in T. cbn [fst] in T. injection T as <-.
      cbn [WindowTitle ProcessName].
      apply title_query_ok in H1 as (_ & ? & ? & _ & _ & ->).
      apply process_query_ok in H2 as (_ & ? & ? & ? & _ & _ & _ & ->).
      split; apply TrimSpace_trimmed.
Qed.

(** *** Calls, sleeps and records *)

Lemma tick_calls (interval : Z) (m : Machine) :
  (calls m + 1 <= calls (snd (tick To_LowerCase env interval m)) <= calls m + 6)%nat /\
  (forall a, fst (tick To_LowerCase env interval m) = Sampled a ->
             calls (snd (tick To_LowerCase env interval m)) = (calls m + 6)%nat).
Proof.
  destruct (tick_cases interval m)
    as [(err & m1 & H1) | [(title & m1 & err & m2 & H1 & H2)
                          | (title & m1 & name & m2 & H1 & H2)]].
  - pose proof (getActiveWindowTitle_frame m) as F. rewrite H1 in F.
    cbn [snd] in F.
    rewrite (tick_title_error interval m err m1 H1). cbv zeta.
    destruct (3 <=? wrap_int (consecutiveErrors m + 1)); cbn [fst snd calls];
      (split; [lia | discriminate]).
  - pose proof (getActiveWindowTitle_frame m) as F1. rewrite H1 in F1.
    pose proof (getActiveProcessName_frame (after_reset m1)) as F2.
    rewrite H2 in F2. cbn [snd after_reset calls] in F1, F2.
    rewrite (tick_process_error interval m title m1 err m2 H1 H2).
    cbn [fst snd calls]. split; [lia | discriminate].
  - pose proof (title_query_ok _ _ _ H1) as (C1 & _).
    pose proof (process_query_ok _ _ _ H2) as (C2 & _).
    cbn [after_reset calls] in C2.
    rewrite (tick_sampled interval m title m1 name m2 H1 H2). cbv zeta.
    cbn [fst snd calls]. split; [lia | intros _ _; lia].
Qed.

Lemma loop_calls (fuel : nat) (interval : Z) (m : Machine) :
  (calls m + fuel
   <= calls (snd (loop To_LowerCase env fuel interval m))
   <= calls m + 6 * fuel)%nat.
Proof.
  revert m. induction fuel as [| fuel IH]; intros m; [cbn [loop ret snd]; lia |].
  rewrite loop_S.
  pose proof (proj1 (tick_calls interval m)) as B.
  destruct (tick To_LowerCase env interval m) as [t m1]. cbn [snd] in B.
  specialize (IH m1).
  destruct (loop To_LowerCase env fuel interval m1) as [ts m']. cbn [snd] in *.
  lia.
Qed.

(** X7: counting the commands the program runs and its own calls of
    [time.Now] (what [calls] counts; the time stamps the standard logger puts
    on its records are not among them): a tick whose window-title query
    fails runs one or two commands, a tick whose process-name query fails
    runs three to five, and a tick that reports a Sample runs five commands
    and calls [time.Now] once; a run of [fuel] ticks makes between [fuel]
    and [6 * fuel] such calls. *)
Theorem external_calls_per_tick (fuel : nat) (interval : Z) (m : Machine) :
  (calls m + fuel
   <= calls (snd (monitorActivity To_LowerCase env fuel interval m))
   <= calls m + 6 * fuel)%nat /\
  match fst (tick To_LowerCase env interval m) with
  | TitleErrorBackoff | TitleErrorRetry =>
    (calls m + 1 <= calls (snd (tick To_LowerCase env interval m)) <= calls m + 2)%nat
  | ProcessError =>
    (calls m + 3 <= calls (snd (tick To_LowerCase env interval m)) <= calls m + 5)%nat
  | Sampled _ =>
    calls (snd (tick To_LowerCase env interval m)) = (calls m + 6)%nat
  end.
Proof.
  split.
  { rewrite monitorActivity_loop.
    apply (loop_calls fuel interval (after_reset m)). }
  destruct (tick_cases interval m)
    as [(err & m1 & H1) | [(title & m1 & err & m2 & H1 & H2)
                          | (title & m1 & name & m2 & H1 & H2)]].
  - pose proof (getActiveWindowTitle_frame m) as F. rewrite H1 in F.
    cbn [snd] in F.
    rewrite (tick_title_error interval m err m1 H1). cbv zeta.
    destruct (3 <=? wrap_int (consecutiveErrors m + 1)); cbn [fst snd calls]; lia.
  - pose proof (title_query_ok _ _ _ H1) as (C1 & _).
    pose proof (getActiveProcessName_frame (after_reset m1)) as F2.
    rewrite H2 in F2. cbn [snd after_reset calls] in F2.
    rewrite (tick_process_error interval m title m1 err m2 H1 H2).
    cbn [fst snd calls]. lia.
  - pose proof (title_query_ok _ _ _ H1) as (C1 & _).
    pose proof (process_query_ok _ _ _ H2) as (C2 & _).
    cbn [after_reset calls] in C2.
    rewrite (tick_sampled interval m title m1 name m2 H1 H2). cbv zeta.
    cbn [fst snd calls]. lia.
Qed.

Lemma tick_sleep (interval : Z) (m : Machine) :
  exists evs d,
    out (snd (tick To_LowerCase env interval m)) = out m ++ evs /\
    sleeps_of evs = [d] /\ (d = interval \/ d = 10 * time.Second).
Proof.
  destruct (tick_cases interval m)
    as [(err & m1 & H1) | [(title & m1 & err & m2 & H1 & H2)
                          | (title & m1 & name & m2 & H1 & H2)]].
  - rewrite (tick_title_error interval m err m1 H1). cbv zeta.
    destruct (3 <=? wrap_int (consecutiveErrors m + 1)).
    + do 2 eexists. split; [reflexivity |]. split; [reflexivity | right; reflexivity].
    + do 2 eexists. split; [reflexivity |]. split; [reflexivity | left; reflexivity].
  - rewrite (tick_process_error interval m title m1 err m2 H1 H2).
    do 2 eexists. split; [reflexivity |]. split; [reflexivity | left; reflexivity].
  - rewrite (tick_sampled interval m title m1 name m2 H1 H2). cbv zeta.
    exists ([Stdout (activity_line
                       {| WindowTitle := title; ProcessName := name;
                          Timestamp := now (env (calls m2)) |})]
              ++ tags_printed To_LowerCase name ++ [Sleep interval]), interval.
    split; [reflexivity |]. split; [| left; reflexivity].
    unfold tags_printed, application_logging.
    repeat match goal with
           | |- context [if ?b then _ else _] => destruct b
           end; reflexivity.
Qed.

Lemma loop_sleeps (fuel : nat) (interval : Z) (m : Machine) :
  exists evs,
    out (snd (loop To_LowerCase env fuel interval m)) = out m ++ evs /\
    List.length (sleeps_of evs) = fuel /\
    Forall (fun d => d = interval \/ d = 10 * time.Second) (sleeps_of evs).
Proof.
  revert m. induction fuel as [| fuel IH]; intros m.
  - exists []. cbn [loop ret snd]. rewrite app_nil_r. repeat split. constructor.
  - rewrite loop_S.
    destruct (tick_sleep interval m) as (e1 & d & Ho1 & Hs1 & Hd).
    destruct (tick To_LowerCase env interval m) as [t m1]. cbn [snd] in Ho1.
    destruct (IH m1) as (e2 & Ho2 & Hl2 & Hf2).
    destruct (loop To_LowerCase env fuel interval m1) as [ts m']. cbn [snd] in *.
    exists (e1 ++ e2). rewrite Ho2, Ho1, app_assoc. split; [reflexivity |].
    rewrite sleeps_of_app, Hs1. cbn [app List.length]. split; [lia |].
    constructor; assumption.
Qed.

Lemma main_preflight_fails (fuel : nat) (m : Machine) :
  (exists e, look_path (env (calls m)) "xdotool" = Err e) \/
  (exists p e,
      look_path (env (calls m)) "xdotool" = Ok p /\
      output (env (S (calls m))) "xdotool" ["getdisplaygeometry"] = Err e) ->
  exists evs m',
    main To_LowerCase env fuel m = (Exited 1, m') /\
    out m' = out m ++ evs /\
    sleeps_of evs = [] /\ stdout_of evs = [].
Proof.
  intros [(e & H1) | (p & e & H1 & H2)];
    unfold main, checkDependencies, exec_LookPath, exec_Output, log_Println,
           log_Printf, ask, emit, bind, ret;
    cbn [calls out consecutiveErrors writes]; rewrite H1;
    cbn [calls out consecutiveErrors writes]; try rewrite H2;
    do 2 eexists;
    (split; [reflexivity |]);
    cbn [calls out consecutiveErrors writes]; rewrite <- app_assoc;
    (split; [reflexivity |]); split; reflexivity.
Qed.

(** X8: every sleep of [main] lasts five or ten seconds. When the preflight
    fails [main] never sleeps; otherwise it sleeps once per tick, so [fuel]
    ticks take at least [fuel] times five seconds. *)
Theorem main_sleeps_five_or_ten_seconds (fuel : nat) (m : Machine) :
  exists evs,
    out (snd (main To_LowerCase env fuel m)) = out m ++ evs /\
    Forall (fun d => d = 5 * time.Second \/ d = 10 * time.Second) (sleeps_of evs) /\
    match fst (main To_LowerCase env fuel m) with
    | Running ts =>
      List.length ts = fuel /\ List.length (sleeps_of evs) = fuel /\
      Z.of_nat fuel * (5 * time.Second) <= fold_right Z.add 0 (sleeps_of evs)
    | Exited code => code = 1 /\ sleeps_of evs = []
    end.
Proof.
  assert (Sum : forall l,
             Forall (fun d => d = 5 * time.Second \/ d = 10 * time.Second) l ->
             Z.of_nat (List.length l) * (5 * time.Second) <= fold_right Z.add 0 l).
  { induction 1 as [| d l Hd _ IH]; [reflexivity |].
    cbn [List.length fold_right]. unfold time.Second in *. lia. }
  destruct (look_path (env (calls m)) "xdotool") as [p | e] eqn:L.
  - destruct (output (env (S (calls m))) "xdotool" ["getdisplaygeometry"])
      as [g | e] eqn:G.
    + rewrite (main_preflight_ok fuel m p g L G). cbv zeta. cbn [fst snd].
      rewrite monitorActivity_loop.
      set (m0 := after_reset _).
      destruct (loop_sleeps fuel (5 * time.Second) m0) as (evs & Ho & Hl & Hf).
      pose proof (proj1 (loop_runs fuel (5 * time.Second) m0)) as Ht.
      eexists (_ :: _ :: _ :: evs). rewrite Ho. subst m0.
      cbn [out after_reset]. rewrite <- app_assoc. split; [reflexivity |].
      cbn [sleeps_of app]. split; [exact Hf |].
      split; [exact Ht |]. split; [exact Hl |].
      rewrite <- Hl at 1. apply Sum. exact Hf.
    + destruct (main_preflight_fails fuel m) as (evs & m' & E1 & E2 & E3 & _).
      { right. exists p, e. auto. }
      rewrite E1. cbn [fst snd]. exists evs. rewrite E2, E3.
      split; [reflexivity |]. split; [constructor | auto].
  - destruct (main_preflight_fails fuel m) as (evs & m' & E1 & E2 & E3 & _).
    { left. exists e. auto. }
    rewrite E1. cbn [fst snd]. exists evs. rewrite E2, E3.
    split; [reflexivity |]. split; [constructor | auto].
Qed.

Lemma backoff_budget (fuel : nat) (interval : Z) (m : Machine) :
  0 <= consecutiveErrors m < 3 ->
  let ts := fst (loop To_LowerCase env fuel interval m) in
  let m' := snd (loop To_LowerCase env fuel interval m) in
  2 * Z.of_nat (List.length (filter is_backoff ts)) + consecutiveErrors m'
  <= Z.of_nat (List.length (filter is_retry ts)) + consecutiveErrors m /\
  0 <= consecutiveErrors m' < 3.
Proof.
  revert m. induction fuel as [| fuel IH]; intros m Hc; cbv zeta.
  - cbn [loop ret fst snd filter List.length]. lia.
  - rewrite loop_S.
    destruct (tick_cases interval m)
      as [(err & m1 & H1) | [(title & m1 & err & m2 & H1 & H2)
                            | (title & m1 & name & m2 & H1 & H2)]].
    + rewrite (tick_title_error interval m err m1 H1). cbv zeta.
      rewrite wrap_int_small by lia.
      destruct (Z.leb_spec 3 (consecutiveErrors m + 1)).
      * match goal with
        | |- context [loop To_LowerCase env fuel interval ?s] => set (s1 := s)
        end.
        destruct (IH s1) as [I B]; [cbn; lia |].
        destruct (loop To_LowerCase env fuel interval s1) as [ts m'].
        cbn [fst snd filter is_backoff is_retry List.length] in *.
        change (consecutiveErrors s1) with 0 in I. lia.
      * match goal with
        | |- context [loop To_LowerCase env fuel interval ?s] => set (s1 := s)
        end.
        destruct (IH s1) as [I B]; [cbn; lia |].
        destruct (loop To_LowerCase env fuel interval s1) as [ts m'].
        cbn [fst snd filter is_backoff is_retry List.length] in *.
        change (consecutiveErrors s1) with (consecutiveErrors m + 1) in I. lia.
    + rewrite (tick_process_error interval m title m1 err m2 H1 H2).
      match goal with
      | |- context [loop To_LowerCase env fuel interval ?s] => set (s1 := s)
      end.
      destruct (IH s1) as [I B]; [cbn; lia |].
      destruct (loop To_LowerCase env fuel interval s1) as [ts m'].
      cbn [fst snd filter is_backoff is_retry List.length] in *.
      change (consecutiveErrors s1) with 0 in I. lia.
    + rewrite (tick_sampled interval m title m1 name m2 H1 H2).
      cbv beta iota zeta.
      match goal with
      | |- context [loop To_LowerCase env fuel interval ?s] => set (s1 := s)
      end.
      destruct (IH s1) as [I B]; [cbn; lia |].
      destruct (loop To_LowerCase env fuel interval s1) as [ts m'].
      cbn [fst snd filter is_backoff is_retry List.length] in *.
      change (consecutiveErrors s1) with 0 in I. lia.
Qed.

(** X9: in any run of [monitorActivity], every backoff has been paid for by
    two ordinary retries: twice the number of ticks that ended by the
    backoff, plus the final value of the counter, is at most the number of
    ticks that ended by the ordinary retry. *)
Theorem backoff_needs_two_retries (fuel : nat) (interval : Z) (m : Machine) :
  let ts := fst (monitorActivity To_LowerCase env fuel interval m) in
  let m' := snd (monitorActivity To_LowerCase env fuel interval m) in
  2 * Z.of_nat (List.length (filter is_backoff ts)) + consecutiveErrors m'
  <= Z.of_nat (List.length (filter is_retry ts)) /\
  (3 * List.length (filter is_backoff ts) <= fuel)%nat.
Proof.
  cbv zeta. rewrite monitorActivity_loop.
  destruct (backoff_budget fuel interval (after_reset m)) as [I B];
    [cbn; lia |].
  cbv zeta in I. cbn [after_reset consecutiveErrors] in I.
  split; [lia |].
  pose proof (proj1 (loop_runs fuel interval (after_reset m))) as L.
  set (ts := fst (loop To_LowerCase env fuel interval (after_reset m))) in *.
  assert (D : (List.length (filter is_backoff ts)
               + List.length (filter is_retry ts) <= List.length ts)%nat).
  { clearbody ts. clear L I B.
    induction ts as [| [| | | a] ts IH];
      cbn [filter is_backoff is_retry List.length]; lia. }
  lia.
Qed.

(** X10: a tick writes log records exactly when it reports no Sample: a
    tick that reports a Sample logs nothing, and a tick that reports none
    logs at least one record and prints nothing. *)
Theorem tick_logs_iff_no_sample (interval : Z) (m : Machine) :
  exists evs,
    out (snd (tick To_LowerCase env interval m)) = out m ++ evs /\
    match fst (tick To_LowerCase env interval m) with
    | Sampled _ => logs_of evs = [] /\ stdout_of evs <> []
    | _ => logs_of evs <> [] /\ stdout_of evs = []
    end.
Proof.
  destruct (tick_cases interval m)
    as [(err & m1 & H1) | [(title & m1 & err & m2 & H1 & H2)
                          | (title & m1 & name & m2 & H1 & H2)]].
  - rewrite (tick_title_error interval m err m1 H1). cbv zeta.
    destruct (3 <=? wrap_int (consecutiveErrors m + 1));
      (eexists; split; [reflexivity |]); cbn [fst];
        (split; [discriminate | reflexivity]).
  - rewrite (tick_process_error interval m title m1 err m2 H1 H2).
    eexists; split; [reflexivity |]. cbn [fst].
    split; [discriminate | reflexivity].
  - rewrite (tick_sampled interval m title m1 name m2 H1 H2). cbv zeta.
    eexists; split; [reflexivity |]. cbn [fst].
    unfold tags_printed, application_logging.
    repeat match goal with
           | |- context [if ?b then _ else _] => destruct b
           end; (split; [reflexivity | discriminate]).
Qed.

Lemma logs_of_app (e1 e2 : list Event) :
  logs_of (e1 ++ e2) = logs_of e1 ++ logs_of e2.
Proof.
  induction e1 as [| [msg | text | d] e1 IH]; simpl; rewrite ?IH; reflexivity.
Qed.

Lemma count_logged_app (msg : string) (e1 e2 : list Event) :
  count_logged msg (e1 ++ e2) = (count_logged msg e1 + count_logged msg e2)%nat.
Proof.
  unfold count_logged. rewrite logs_of_app, filter_app, length_app. reflexivity.
Qed.

Lemma tick_hint (interval : Z) (m : Machine) :
  exists evs,
    out (snd (tick To_LowerCase env interval m)) = out m ++ evs /\
    count_logged hint_header evs =
    if is_backoff (fst (tick To_LowerCase env interval m)) then 1%nat else 0%nat.
Proof.
  destruct (tick_cases interval m)
    as [(err & m1 & H1) | [(title & m1 & err & m2 & H1 & H2)
                          | (title & m1 & name & m2 & H1 & H2)]].
  - rewrite (tick_title_error interval m err m1 H1). cbv zeta.
    destruct (3 <=? wrap_int (consecutiveErrors m + 1));
      (eexists; split; [reflexivity |]); reflexivity.
  - rewrite (tick_process_error interval m title m1 err m2 H1 H2).
    eexists; split; reflexivity.
  - rewrite (tick_sampled interval m title m1 name m2 H1 H2). cbv zeta.
    eexists; split; [reflexivity |]. cbn [fst is_backoff].
    unfold tags_printed, application_logging.
    repeat match goal with
           | |- context [if ?b then _ else _] => destruct b
           end; reflexivity.
Qed.

(** X14: the backoff hint is logged once for every tick that ends by the
    backoff and at no other time: in the trace of a run of
    [monitorActivity], the records "Too many consecutive errors. Possible
    causes:" are as many as the backoff ticks. *)
Theorem hint_logged_once_per_backoff (fuel : nat) (interval : Z) (m : Machine) :
  exists evs,
    out (snd (monitorActivity To_LowerCase env fuel interval m)) = out m ++ evs /\
    count_logged hint_header evs =
    List.length (filter is_backoff
                        (fst (monitorActivity To_LowerCase env fuel interval m))).
Proof.
  rewrite monitorActivity_loop.
  change (out m) with (out (after_reset m)).
  generalize (after_reset m). clear m.
  induction fuel as [| fuel IH]; intros m.
  - exists []. cbn [loop ret fst snd]. rewrite app_nil_r. split; reflexivity.
  - rewrite loop_S.
    destruct (tick_hint interval m) as (e1 & Ho1 & Hc1).
    destruct (tick To_LowerCase env interval m) as [t m1]. cbn [fst snd] in *.
    destruct (IH m1) as (e2 & Ho2 & Hc2).
    destruct (loop To_LowerCase env fuel interval m1) as [ts m']. cbn [fst snd] in *.
    exists (e1 ++ e2). rewrite Ho2, Ho1, app_assoc. split; [reflexivity |].
    rewrite count_logged_app, Hc1, Hc2. cbn [filter].
    destruct (is_backoff t); reflexivity.
Qed.

Lemma stdout_of_app (e1 e2 : list Event) :
  stdout_of (e1 ++ e2) = stdout_of e1 ++ stdout_of e2.
Proof.
  induction e1 as [| [msg | text | d] e1 IH]; simpl; rewrite ?IH; reflexivity.
Qed.

Lemma tick_trace (interval : Z) (m : Machine) :
  0 <= consecutiveErrors m < 3 ->
  exists evs,
    out (snd (tick To_LowerCase env interval m)) = out m ++ evs /\
    Forall loop_record (logs_of evs) /\
    stdout_of evs = printed_by To_LowerCase (fst (tick To_LowerCase env interval m)) /\
    sleeps_of evs = [slept_after interval (fst (tick To_LowerCase env interval m))] /\
    0 <= consecutiveErrors (snd (tick To_LowerCase env interval m)) < 3.
Proof.
  intros Hc.
  destruct (tick_cases interval m)
    as [(err & m1 & H1) | [(title & m1 & err & m2 & H1 & H2)
                          | (title & m1 & name & m2 & H1 & H2)]].
  - rewrite (tick_title_error interval m err m1 H1). cbv zeta.
    rewrite wrap_int_small by lia.
    assert (R : loop_record ("Error getting window title (attempt "
                               ++ fmt.d (consecutiveErrors m + 1) ++ "/"
                               ++ fmt.d 3 ++ "): " ++ err)).
    { left. exists (consecutiveErrors m + 1), err. split; [lia | reflexivity]. }
    destruct (Z.leb_spec 3 (consecutiveErrors m + 1));
      (eexists; split; [reflexivity |]); cbn [fst snd consecutiveErrors].
    + split; [| repeat split; lia].
      cbn [logs_of title_error_record].
      constructor; [exact R |].
      repeat (constructor; [right; right; cbn; tauto |]). constructor.
    + split; [| repeat split; lia].
      cbn [logs_of title_error_record]. constructor; [exact R | constructor].
  - rewrite (tick_process_error interval m title m1 err m2 H1 H2).
    eexists; split; [reflexivity |]. cbn [fst snd consecutiveErrors].
    split; [| repeat split; lia].
    cbn [logs_of]. constructor; [| constructor].
    right; left. exists err. reflexivity.
  - rewrite (tick_sampled interval m title m1 name m2 H1 H2). cbv zeta.
    eexists; split; [reflexivity |]. cbn [fst snd consecutiveErrors].
    rewrite logs_of_app, !stdout_of_app, !sleeps_of_app.
    cbn [printed_by ProcessName].
    unfold tags_printed, application_logging.
    repeat match goal with
           | |- context [if ?b then _ else _] => destruct b
           end; cbn; (split; [constructor |]); repeat split; lia.
Qed.

Lemma loop_trace (fuel : nat) (interval : Z) (m : Machine) :
  0 <= consecutiveErrors m < 3 ->
  exists evs,
    out (snd (loop To_LowerCase env fuel interval m)) = out m ++ evs /\
    Forall loop_record (logs_of evs) /\
    stdout_of evs =
      flat_map (printed_by To_LowerCase) (fst (loop To_LowerCase env fuel interval m)) /\
    sleeps_of evs =
      map (slept_after interval) (fst (loop To_LowerCase env fuel interval m)).
Proof.
  revert m. induction fuel as [| fuel IH]; intros m Hc.
  - exists []. cbn [loop ret fst snd]. rewrite app_nil_r.
    repeat split. constructor.
  - rewrite loop_S.
    destruct (tick_trace interval m Hc) as (e1 & Ho1 & Hl1 & Hp1 & Hs1 & Hc1).
    destruct (tick To_LowerCase env interval m) as [t m1]. cbn [fst snd] in *.
    destruct (IH m1 Hc1) as (e2 & Ho2 & Hl2 & Hp2 & Hs2).
    destruct (loop To_LowerCase env fuel interval m1) as [ts m']. cbn [fst snd] in *.
    exists (e1 ++ e2). rewrite Ho2, Ho1, app_assoc. split; [reflexivity |].
    rewrite logs_of_app, stdout_of_app, sleeps_of_app, Hp1, Hp2, Hs1, Hs2.
    split; [apply Forall_app; split; assumption |].
    split; reflexivity.
Qed.

(** X15: every record a run of [monitorActivity] logs is a failed
    window-title query with an attempt number from 1 to 3, a failed
    process-name query, or one of the six records of the hint; no record
    shows attempt 0 or an attempt above the threshold. *)
Theorem log_records_of_the_loop (fuel : nat) (interval : Z) (m : Machine) :
  exists evs,
    out (snd (monitorActivity To_LowerCase env fuel interval m)) = out m ++ evs /\
    Forall loop_record (logs_of evs).
Proof.
  rewrite monitorActivity_loop.
  destruct (loop_trace fuel interval (after_reset m)) as (evs & Ho & Hl & _);
    [cbn; lia |].
  exists evs. split; [exact Ho | exact Hl].
Qed.

(** X16: what a run of [monitorActivity] prints on standard output is the
    lines of the Samples it reports, in order, each followed by its tag if it
    has one, and nothing else; the sleeps of the run are, tick by tick, ten
    seconds after a backoff and the interval after any other tick. *)
Theorem output_follows_the_ticks (fuel : nat) (interval : Z) (m : Machine) :
  exists evs,
    out (snd (monitorActivity To_LowerCase env fuel interval m)) = out m ++ evs /\
    stdout_of evs =
      flat_map (printed_by To_LowerCase)
               (fst (monitorActivity To_LowerCase env fuel interval m)) /\
    sleeps_of evs =
      map (slept_after interval)
          (fst (monitorActivity To_LowerCase env fuel interval m)).
Proof.
  rewrite monitorActivity_loop.
  destruct (loop_trace fuel interval (after_reset m)) as (evs & Ho & _ & Hp & Hs);
    [cbn; lia |].
  exists evs. split; [exact Ho |]. split; [exact Hp | exact Hs].
Qed.

(** *** More on the classification *)

Lemma ToLower_on_ascii (s : string) :
  all_bytes is_ascii s = true ->
  strings.ToLower To_LowerCase s = map_bytes strings.lowerASCII s.
Proof.
  intros H. unfold strings.ToLower.
  change (all_bytes (fun c => c <? utf8.RuneSelf) s) with (all_bytes is_ascii s).
  rewrite H.
  destruct (all_bytes (fun c => negb (strings.isUpperASCII c)) s) eqn:U;
    cbn [negb]; [| reflexivity].
  symmetry. apply map_lower_fixes. exact U.
Qed.

Lemma tags_from_lowered (n1 n2 : string) :
  strings.ToLower To_LowerCase n1 = strings.ToLower To_LowerCase n2 ->
  tags_printed To_LowerCase n1 = tags_printed To_LowerCase n2.
Proof.
  intros E. unfold tags_printed, application_logging. rewrite E. reflexivity.
Qed.


(** X13: at most one tag is printed, and the browser tag takes priority: a
    name that contains "chrome" in any case gets the browser tag and no
    other, whatever else it contains. *)
Theorem browser_tag_takes_priority (name : string) :
  (List.length (tags_printed To_LowerCase name) <= 1)%nat /\
  (contains_any_case "chrome" name ->
   tags_printed To_LowerCase name = [Stdout ("→ Browser activity detected" ++ nl)]).
Proof.
  split.
  - unfold tags_printed, application_logging.
    repeat match goal with
           | |- context [if ?b then _ else _] => destruct b
           end; cbn; lia.
  - intros H.
    assert (O : occurs "chrome" (strings.ToLower To_LowerCase name)).
    { apply any_case_occurs_lowered; [discriminate | reflexivity | exact H]. }
    apply Contains_occurs in O.
    unfold tags_printed, application_logging. rewrite O. reflexivity.
Qed.

End Properties.

(** ** The properties on concrete runs *)

Local Open Scope list_scope.

(** The third failure in a row, in a session that is down. *)
Lemma backoff_at_threshold_witness :
  getActiveWindowTitle no_session two_errors =
    (Err "failed to get active window ID: exit status 1",
     {| calls := 3; out := []; consecutiveErrors := 2; writes := [0; 1; 2] |}) /\
  maxConsecutiveErrors <= wrap_int (consecutiveErrors two_errors + 1) /\
  fst (tick (fun r => r) no_session (5 * time.Second) two_errors) = TitleErrorBackoff /\
  sleeps_of (out (snd (tick (fun r => r) no_session (5 * time.Second) two_errors)))
    = [10 * time.Second] /\
  consecutiveErrors (snd (tick (fun r => r) no_session (5 * time.Second) two_errors)) = 0.
Proof.
  assert (H1 : getActiveWindowTitle no_session two_errors =
               (Err "failed to get active window ID: exit status 1",
                {| calls := 3; out := []; consecutiveErrors := 2;
                   writes := [0; 1; 2] |})) by reflexivity.
  assert (H2 : maxConsecutiveErrors <= wrap_int (consecutiveErrors two_errors + 1))
    by (vm_compute; discriminate).
  split; [exact H1 |]. split; [exact H2 |].
  destruct (backoff_at_threshold (fun r => r) no_session (5 * time.Second)
                                 two_errors _ _ H1 H2) as (T & _).
  rewrite T. repeat split.
Defined.

(** A focused window that has a title and no process identifier. *)
Lemma process_error_leaves_counter_witness :
  getActiveWindowTitle (desktop (fun _ => "3")) two_errors =
    (Ok "Desktop",
     {| calls := 4; out := []; consecutiveErrors := 2; writes := [0; 1; 2] |}) /\
  getActiveProcessName (desktop (fun _ => "3"))
    (after_reset {| calls := 4; out := []; consecutiveErrors := 2;
                    writes := [0; 1; 2] |}) =
    (Err "failed to get window PID: exit status 1",
     {| calls := 6; out := []; consecutiveErrors := 0; writes := [0; 1; 2; 0] |}) /\
  tick (fun r => r) (desktop (fun _ => "3")) (5 * time.Second) two_errors =
    (ProcessError,
     {| calls := 6;
        out := [Log "Error getting process name: failed to get window PID: exit status 1";
                Sleep 5000000000];
        consecutiveErrors := 0;
        writes := [0; 1; 2; 0] |}).
Proof.
  split; [reflexivity |]. split; [reflexivity |].
  refine (proj1 (process_error_leaves_counter
           (fun r => r) (desktop (fun _ => "3")) (5 * time.Second) two_errors
           "Desktop"
           {| calls := 4; out := []; consecutiveErrors := 2; writes := [0; 1; 2] |}
           "failed to get window PID: exit status 1"
           {| calls := 6; out := []; consecutiveErrors := 0;
              writes := [0; 1; 2; 0] |} _ _));
    reflexivity.
Defined.

(** A successful title query after two failures. *)
Lemma title_success_resets_counter_witness :
  getActiveWindowTitle (desktop (fun _ => "1")) two_errors =
    (Ok "Inbox",
     {| calls := 4; out := []; consecutiveErrors := 2; writes := [0; 1; 2] |}) /\
  consecutiveErrors two_errors = 2 /\
  consecutiveErrors
    (snd (tick (fun r => r) (desktop (fun _ => "1")) (5 * time.Second) two_errors)) = 0.
Proof.
  split; [reflexivity |]. split; [reflexivity |].
  refine (proj1 (proj2 (title_success_resets_counter
           (fun r => r) (desktop (fun _ => "1")) (5 * time.Second) two_errors
           "Inbox"
           {| calls := 4; out := []; consecutiveErrors := 2; writes := [0; 1; 2] |}
           _))).
  reflexivity.
Defined.

(** A session that comes up after two failed ticks. *)
Lemma two_failures_then_success_witness :
  title_outcomes (fun r => r) late_session 3 (5 * time.Second) (after_reset boot)
    = [false; false; true] /\
  counters_after_ticks (fun r => r) late_session 3 (5 * time.Second) (after_reset boot)
    = [1; 2; 0].
Proof.
  assert (H : title_outcomes (fun r => r) late_session 3 (5 * time.Second)
                             (after_reset boot) = [false; false; true])
    by reflexivity.
  split; [exact H |].
  exact (proj1 (two_failures_then_success
                  (fun r => r) late_session (5 * time.Second) boot H)).
Defined.

(** Startup on a machine without the tool. *)
Lemma preflight_failure_aborts_witness :
  look_path (no_tool (calls boot)) "xdotool" =
    Err "executable file not found in $PATH" /\
  exists msg m' evs,
    main (fun r => r) no_tool 7 boot = (Exited 1, m') /\
    1 <> 0 /\
    out m' = out boot ++ evs /\
    evs = [Log ("Starting activity monitor..." ++ nl);
           Log ("Dependency check failed: " ++ msg)] /\
    (msg = "xdotool is not installed. Please run: sudo apt-get install xdotool"%string \/
     exists e,
       msg = ("cannot connect to X display. Make sure you're running in X11 session: "
                ++ e)%string) /\
    stdout_of evs = [] /\
    writes m' = writes boot /\
    consecutiveErrors m' = consecutiveErrors boot /\
    (calls m' <= calls boot + 2)%nat.
Proof.
  split; [reflexivity |].
  apply (preflight_failure_aborts (fun r => r) no_tool 7 boot).
  left. exists "executable file not found in $PATH"%string. reflexivity.
Defined.

(** The focus moves inside a tick: the Sample pairs the title of window 1
    with the process of window 2. *)
Lemma process_name_uses_second_window_query_witness :
  output (focus_moves 0%nat) "xdotool" ["getactivewindow"] = Ok ("1" ++ nl)%string /\
  output (focus_moves 2%nat) "xdotool" ["getactivewindow"] = Ok ("2" ++ nl)%string /\
  fst (tick (fun r => r) focus_moves (5 * time.Second) boot) =
  Sampled {| WindowTitle := "Inbox"; ProcessName := "nvim"; Timestamp := 47105 |}.
Proof.
  split; [reflexivity |]. split; [reflexivity |].
  refine (proj1 (process_name_uses_second_window_query
           (fun r => r) focus_moves (5 * time.Second) boot
           ("1" ++ nl)%string ("Inbox" ++ nl)%string ("2" ++ nl)%string ("200" ++ nl)%string ("nvim" ++ nl)%string
           _ _ _ _ _));
    reflexivity.
Defined.

(** A failed title query in a session that is down: one call, no more. *)
Lemma failed_title_query_ends_the_asking_witness :
  getActiveWindowTitle no_session two_errors =
    (Err "failed to get active window ID: exit status 1",
     {| calls := 3; out := []; consecutiveErrors := 2; writes := [0; 1; 2] |}) /\
  calls (snd (tick (fun r => r) no_session (5 * time.Second) two_errors)) = 3%nat.
Proof.
  split; [reflexivity |].
  refine (proj1 (failed_title_query_ends_the_asking
                   (fun r => r) no_session (5 * time.Second) two_errors
                   "failed to get active window ID: exit status 1"
                   {| calls := 3; out := []; consecutiveErrors := 2;
                      writes := [0; 1; 2] |} _)).
  reflexivity.
Defined.


(** A query on a desktop whose commands answer with a final newline. *)
Lemma query_results_are_trimmed_witness :
  getActiveWindowTitle (desktop (fun _ => "1")) boot =
    (Ok "Inbox", {| calls := 2; out := []; consecutiveErrors := 0; writes := [] |}) /\
  output (desktop (fun _ => "1") 1%nat) "xdotool" ["getwindowname"; "1"] =
    Ok ("Inbox" ++ nl)%string /\
  trimmed "Inbox".
Proof.
  split; [reflexivity |]. split; [reflexivity |].
  refine (proj1 (proj1 (query_results_are_trimmed
                          (fun r => r) (desktop (fun _ => "1")) (5 * time.Second) boot)
                       "Inbox"
                       {| calls := 2; out := []; consecutiveErrors := 0;
                          writes := [] |} _)).
  reflexivity.
Defined.


(** A helper process of a browser whose name also contains "code". *)
Lemma browser_tag_takes_priority_witness :
  contains_any_case "chrome" "vscode-CHROME-helper" /\
  tags_printed (fun r => r) "vscode-CHROME-helper" =
    [Stdout ("→ Browser activity detected" ++ nl)].
Proof.
  assert (H : contains_any_case "chrome" "vscode-CHROME-helper").
  { exists "vscode-"%string, "CHROME"%string, "-helper"%string.
    split; reflexivity. }
  split; [exact H |].
  exact (proj2 (browser_tag_takes_priority (fun r => r) "vscode-CHROME-helper") H).
Defined.

(** A title of two lines: both queries succeed, and the report of the
    Sample is a text of two lines, not one. *)
Lemma report_spans_two_lines :
  fst (getActiveWindowTitle two_line_title boot) =
    Ok ("build log" ++ nl ++ "step 2")%string /\
  fst (getActiveProcessName
         two_line_title
         (after_reset (snd (getActiveWindowTitle two_line_title boot)))) =
    Ok "xterm"%string /\
  exists text,
    stdout_of (out (snd (tick (fun r => r) two_line_title (5 * time.Second) boot)))
      = [text] /\
    text = ("[13:05:05] Process: xterm | Window: build log" ++ nl
              ++ "step 2" ++ nl)%string /\
    count_nl text = 2%nat /\
    count_nl text <> 1%nat.
Proof.
  split; [reflexivity |]. split; [reflexivity |].
  eexists. split; [reflexivity |]. split; [reflexivity |].
  split; [reflexivity | discriminate].
Qed.
